(** * gamf: the ephemeral record store and the manifest-flow handlers

    A shallow embedding of [store.go] (the [Store] interface and its
    in-process implementation [memStore]) and of the four HTTP handlers
    with their token generator, followed by the properties of the
    single-use token exchange.

    Conventions.
    - A [time.Time] is an integer count of nanoseconds on the process
      clock and a [time.Duration] an integer count of nanoseconds; both
      are [Z], and [Time.Add] is addition (no saturation at the ends of
      the representable range).
    - A Go [error] value is an [option error]: [None] is [nil].
    - A Go [map[string]value] is a [gmap string value]. *)

From Stdlib Require Import ZArith NArith Ascii String List.
From Stdlib.Strings Require Import Byte.
From stdpp Require Import base tactics option list gmap strings fin_maps.

Local Open Scope Z_scope.
Local Open Scope string_scope.

(** * Part I: the program *)

(** ** Package [time] *)

Module time.

Definition Time : Type := Z.
Definition Duration : Type := Z.

Definition Nanosecond : Duration := 1.
Definition Second : Duration := 1000000000 * Nanosecond.
Definition Minute : Duration := 60 * Second.

(** [t.Add(d)] *)
Definition Add (t : Time) (d : Duration) : Time := t + d.

(** [t.After(u)]: [t] is strictly later than [u]. *)
Definition After (t u : Time) : bool := bool_decide (u < t).

End time.

(** ** Errors

    [redis_Nil] is the sentinel [redis.Nil] ("not found"); every other
    error value a store can return is an operational failure. *)

Inductive error : Type :=
| redis_Nil
| other_error (msg : string).

#[global] Instance error_eq_dec : EqDecision error.
Proof. solve_decision. Defined.

(** ** [store.go] *)

(** [type value struct { exp time.Time; val string }] *)
Record value : Type := mkValue { exp : time.Time; val : string }.

#[global] Instance value_eq_dec : EqDecision value.
Proof. solve_decision. Defined.

(** [type Store interface { GetDel; SetEx }].  An implementation acts on a
    state [S]; the instant read by [time.Now()] inside the call is passed
    in. *)
Class Store (S : Type) : Type := {
  Store_GetDel : time.Time -> S -> string -> (string * option error) * S;
  Store_SetEx : time.Time -> S -> string -> string -> time.Duration ->
                option error * S
}.

(** The outcome "not found" of a [GetDel]: [return "", redis.Nil]. *)
Definition NotFound : string * option error := ("", Some redis_Nil).

Module memStore.

(** The state is the field [d] of [memStore].  The mutex [m] is held for
    the whole of either method, so a call is one atomic transition of [d];
    the interleaving of the steps inside is the subject of [Module
    Concurrent] below. *)

(** [NewMemStore] *)
Definition New : gmap string value := ∅.

(** [func (ms *memStore) GetDel(_ context.Context, key string) (string, error)] *)
Definition GetDel (now : time.Time) (d : gmap string value) (key : string)
  : (string * option error) * gmap string value :=
  match d !! key with
  | None => (NotFound, d)
  | Some v =>
      if time.After now (exp v)
      then (NotFound, delete key d)
      else ((val v, None), delete key d)
  end.

(** [func (ms *memStore) SetEx(_ context.Context, key, val string, exp time.Duration) error] *)
Definition SetEx (now : time.Time) (d : gmap string value) (key v : string)
    (ttl : time.Duration) : option error * gmap string value :=
  (None, <[key := {| val := v; exp := time.Add now ttl |}]> d).

End memStore.

#[global] Instance memStore_Store : Store (gmap string value) := {
  Store_GetDel := memStore.GetDel;
  Store_SetEx := memStore.SetEx
}.

(** *** Sequences of store operations *)

Inductive op : Type :=
| OpGetDel (now : time.Time) (key : string)
| OpSetEx (now : time.Time) (key v : string) (ttl : time.Duration).

Definition op_key (o : op) : string :=
  match o with OpGetDel _ k => k | OpSetEx _ k _ _ => k end.

Definition is_SetEx_on (key : string) (o : op) : Prop :=
  match o with OpGetDel _ _ => False | OpSetEx _ k _ _ => k = key end.

Definition run_op (o : op) (d : gmap string value) : gmap string value :=
  match o with
  | OpGetDel now k => (memStore.GetDel now d k).2
  | OpSetEx now k v ttl => (memStore.SetEx now d k v ttl).2
  end.

Definition run_ops (os : list op) (d : gmap string value) : gmap string value :=
  foldl (fun d o => run_op o d) d os.

(** ** Concurrent callers of [memStore.GetDel]

    Each caller runs the body of [GetDel] one statement at a time; the
    scheduler picks which caller moves next and the clock moves forward
    in between.  [ms.m.Lock()] can only be taken while the mutex is free,
    and the deferred [ms.m.Unlock()] runs after the result is fixed. *)

Module Concurrent.

(** Where a caller is in the body of [GetDel]. *)
Inductive pc : Type :=
| AtLock                                  (* before [ms.m.Lock()] *)
| AtLookup                                (* before [val, ok := ms.d[key]] *)
| AtCheck (v : value)                     (* [ok]; before [time.Now().After(val.exp)] *)
| AtDelete (r : string * option error)    (* before [delete(ms.d, key)] *)
| AtUnlock (r : string * option error)    (* before the deferred [ms.m.Unlock()] *)
| Returned (r : string * option error).

Record state : Type := mkState {
  d : gmap string value;          (* [ms.d] *)
  locked : bool;                  (* [ms.m] *)
  now : time.Time;                (* the clock read by [time.Now()] *)
  threads : list (string * pc)    (* each caller: its [key] and where it is *)
}.

Inductive action : Type :=
| Tick (delta : time.Duration)    (* time passes *)
| Run (i : nat).                  (* caller [i] executes its next statement *)

Definition set_thread (s : state) (i : nat) (key : string) (p : pc) : state :=
  mkState (d s) (locked s) (now s) (<[i := (key, p)]> (threads s)).

Definition step (a : action) (s : state) : option state :=
  match a with
  | Tick delta =>
      if bool_decide (0 <= delta)
      then Some (mkState (d s) (locked s) (now s + delta) (threads s))
      else None
  | Run i =>
      match threads s !! i with
      | None => None
      | Some (key, AtLock) =>
          if locked s then None
          else Some (mkState (d s) true (now s) (<[i := (key, AtLookup)]> (threads s)))
      | Some (key, AtLookup) =>
          match d s !! key with
          | None => Some (set_thread s i key (AtUnlock NotFound))
          | Some v => Some (set_thread s i key (AtCheck v))
          end
      | Some (key, AtCheck v) =>
          if time.After (now s) (exp v)
          then Some (set_thread s i key (AtDelete NotFound))
          else Some (set_thread s i key (AtDelete (val v, None)))
      | Some (key, AtDelete r) =>
          Some (mkState (delete key (d s)) (locked s) (now s)
                        (<[i := (key, AtUnlock r)]> (threads s)))
      | Some (key, AtUnlock r) =>
          Some (mkState (d s) false (now s) (<[i := (key, Returned r)]> (threads s)))
      | Some (_, Returned _) => None
      end
  end.

Fixpoint exec (acts : list action) (s : state) : option state :=
  match acts with
  | [] => Some s
  | a :: acts' =>
      match step a s with
      | None => None
      | Some s' => exec acts' s'
      end
  end.

(** [n] callers of [GetDel(key)], none of which has started. *)
Definition callers (n : nat) (key : string) : list (string * pc) :=
  replicate n (key, AtLock).

Definition returned (t : string * pc) : Prop :=
  ∃ r, t.2 = Returned r.

(** The caller holds the mutex. *)
Definition held (p : pc) : bool :=
  match p with
  | AtLookup | AtCheck _ | AtDelete _ | AtUnlock _ => true
  | AtLock | Returned _ => false
  end.

(** The result of the caller that is handed the value of the record [v0]. *)
Definition win (v0 : value) : string * option error := (val v0, None).

(** *** The invariant of a run

    The mutex has at most one holder, and is locked while it has one. *)
Definition lock_inv (s : state) : Prop :=
  ∃ h : nat, ∀ i key p,
    threads s !! i = Some (key, p) -> held p = true -> locked s = true ∧ i = h.

(** Where a caller on the key can be while the record [v0] is still in
    the map: it has not passed [delete], and it has fixed [NotFound] as
    its result only if the clock is past the expiry instant. *)
Definition before_delete (v0 : value) (clock : time.Time) (p : pc) : Prop :=
  p = AtLock ∨ p = AtLookup ∨ p = AtCheck v0 ∨ p = AtDelete (win v0) ∨
  (p = AtDelete NotFound ∧ exp v0 < clock).

(** Where caller [i] on the key can be once the record is gone: the
    caller [w], if any, has fixed the value as its result, every other
    one that has a result has [NotFound]. *)
Definition after_delete (v0 : value) (w : option nat) (i : nat) (p : pc) : Prop :=
  p = AtLock ∨ p = AtLookup ∨
  ((p = AtUnlock (win v0) ∨ p = Returned (win v0)) ∧ w = Some i) ∨
  ((p = AtUnlock NotFound ∨ p = Returned NotFound) ∧ w ≠ Some i).

(** The callers on key [k], whose record was [v0] when they started:
    nobody has the value while the record is in the map; afterwards at
    most one caller has it, and none only if the clock is past the
    expiry instant. *)
Definition record_inv (k : string) (v0 : value) (s : state) : Prop :=
  match d s !! k with
  | Some v =>
      v = v0 ∧
      ∀ i p, threads s !! i = Some (k, p) -> before_delete v0 (now s) p
  | None =>
      ∃ w : option nat,
        (∀ i p, threads s !! i = Some (k, p) -> after_delete v0 w i p) ∧
        (∀ i, w = Some i ->
           ∃ p, threads s !! i = Some (k, p) ∧
                (p = AtUnlock (win v0) ∨ p = Returned (win v0))) ∧
        (w = None -> exp v0 < now s)
  end.

Definition Inv (k : string) (v0 : value) (s : state) : Prop :=
  lock_inv s ∧ record_inv k v0 s.

End Concurrent.

(** ** [encoding/hex] and the token generator *)

Definition hextable : string := "0123456789abcdef".

(** [hextable[n]] *)
Definition hex_digit (n : N) : ascii :=
  match String.get (N.to_nat n) hextable with
  | Some c => c
  | None => "0"%char
  end.

(** [hex.EncodeToString]: for each byte [v], [hextable[v>>4]] then
    [hextable[v&0x0f]]. *)
Fixpoint hex_EncodeToString (bs : list byte) : string :=
  match bs with
  | [] => ""
  | v :: bs' =>
      String (hex_digit (N.shiftr (Byte.to_N v) 4))
        (String (hex_digit (N.land (Byte.to_N v) 15))
           (hex_EncodeToString bs'))
  end.

(** A lowercase hexadecimal digit. *)
Definition is_hex_lower (c : ascii) : bool :=
  let n := nat_of_ascii c in
  ((48 <=? n) && (n <=? 57) || (97 <=? n) && (n <=? 102))%nat.

(** The value of a lowercase hexadecimal digit, and the bytes a string of
    digit pairs stands for; they read a token back into its bytes. *)
Definition hex_value (c : ascii) : N :=
  let n := N_of_ascii c in
  if (n <? 58)%N then (n - 48)%N else (n - 87)%N.

Fixpoint unhex (s : string) : list byte :=
  match s with
  | String hi (String lo rest) =>
      match Byte.of_N (16 * hex_value hi + hex_value lo) with
      | Some v => v :: unhex rest
      | None => []
      end
  | _ => []
  end.

(** A call [Read(b)] writes bytes over the front of the slice [b]; the
    length of [b] does not change. *)
Definition copy_into (b src : list byte) : list byte :=
  take (length b) src ++ drop (length src) b.

(** [make([]byte, n)] *)
Definition make_bytes (n : nat) : list byte := replicate n Byte.x00.

Definition error_msg (e : error) : string :=
  match e with
  | redis_Nil => "redis: nil"
  | other_error msg => msg
  end.

(** ** The handlers' effects

    A handler is a program over three calls into its collaborators: the
    secure random source ([crypto/rand.Read] on a slice of [n] bytes,
    answered by the bytes written and the error) and the two methods of
    the [Store] it was constructed with. *)

Inductive prog (A : Type) : Type :=
| Ret (a : A)
| RandRead (n : nat) (k : list byte * option error -> prog A)
| StoreGetDel (key : string) (k : string * option error -> prog A)
| StoreSetEx (key v : string) (ttl : time.Duration) (k : option error -> prog A).

Arguments Ret {A} a.
Arguments RandRead {A} n k.
Arguments StoreGetDel {A} key k.
Arguments StoreSetEx {A} key v ttl k.

Fixpoint bind {A B : Type} (p : prog A) (f : A -> prog B) : prog B :=
  match p with
  | Ret a => f a
  | RandRead n k => RandRead n (fun r => bind (k r) f)
  | StoreGetDel key k => StoreGetDel key (fun r => bind (k r) f)
  | StoreSetEx key v ttl k => StoreSetEx key v ttl (fun r => bind (k r) f)
  end.

(** [func token() (string, error)] *)
Definition token : prog (string * option error) :=
  RandRead 32 (fun r =>
    match r.2 with
    | Some err =>
        Ret ("", Some (other_error ("error generating token: " +:+ error_msg err)))
    | None =>
        Ret (hex_EncodeToString (copy_into (make_bytes 32) r.1), None)
    end).

(** What [token()] returns when the random source answers [answer]. *)
Definition token_of (answer : list byte * option error) : string * option error :=
  match answer.2 with
  | Some err => ("", Some (other_error ("error generating token: " +:+ error_msg err)))
  | None => (hex_EncodeToString (copy_into (make_bytes 32) answer.1), None)
  end.

(** ** Requests and responses *)

(** [type manifest struct] *)
Record manifest : Type := mkManifest {
  Name : string;
  URL : string;
  HookAttributes : string;                 (* [json.RawMessage] *)
  RedirectURL : string;
  CallbackURLs : list string;
  Description : string;
  Public : bool;
  DefaultEvents : list string;
  DefaultPermissions : gmap string string
}.

(** [type startRequest struct] *)
Record startRequest : Type := mkStartRequest {
  Manifest : manifest;
  TargetType : string;
  TargetSlug : string;
  Host : string;
  Token : string
}.

#[global] Instance manifest_eq_dec : EqDecision manifest.
Proof. solve_decision. Defined.

#[global] Instance startRequest_eq_dec : EqDecision startRequest.
Proof. solve_decision. Defined.

(** [request.Manifest.RedirectURL = u] *)
Definition set_RedirectURL (u : string) (m : manifest) : manifest :=
  mkManifest (Name m) (URL m) (HookAttributes m) u (CallbackURLs m)
             (Description m) (Public m) (DefaultEvents m) (DefaultPermissions m).

(** [request.Token = tok; request.Manifest.RedirectURL = u] *)
Definition set_Token_RedirectURL (tok u : string) (r : startRequest) : startRequest :=
  mkStartRequest (set_RedirectURL u (Manifest r)) (TargetType r) (TargetSlug r)
                 (Host r) tok.

(** [type redirectTemplate struct] *)
Record redirectTemplate : Type := mkRedirectTemplate {
  tmpl_Manifest : string;
  tmpl_Action : string
}.

(** The functions of [encoding/json] the handlers call, at the types they
    call them: [None] is a non-nil error. *)
Record json_codec : Type := mkCodec {
  Decode_startRequest : string -> option startRequest;
  Marshal_startRequest : startRequest -> option string;
  Marshal_manifest : manifest -> option string;
  Marshal_startResponse : string -> string -> option string  (* [Key], [URL] *)
}.

(** What a handler does to its [http.ResponseWriter], in order. *)
Inductive writerCall : Type :=
| WriteHeader (code : Z)
| Header_Add (k v : string)
| Write (body : string)
| tmpl_Execute (data : redirectTemplate)     (* [tmpl.Execute(w, data)] *)
| http_Redirect (url : string) (code : Z).   (* [http.Redirect(w, r, url, code)] *)

(** The status line of the response: the first [WriteHeader] (also the one
    inside [http.Redirect]) fixes it, and a body written before any
    [WriteHeader] fixes it to 200. *)
Fixpoint status (calls : list writerCall) : Z :=
  match calls with
  | [] => 200
  | WriteHeader c :: _ => c
  | http_Redirect _ c :: _ => c
  | Write _ :: _ => 200
  | tmpl_Execute _ :: _ => 200
  | Header_Add _ _ :: rest => status rest
  end.

(** The bytes passed to [w.Write]. *)
Fixpoint written (calls : list writerCall) : string :=
  match calls with
  | [] => ""
  | Write b :: rest => b +:+ written rest
  | _ :: rest => written rest
  end.

(** The data handed to the redirect page, if it was rendered. *)
Fixpoint rendered (calls : list writerCall) : option redirectTemplate :=
  match calls with
  | [] => None
  | tmpl_Execute data :: _ => Some data
  | _ :: rest => rendered rest
  end.

(** The double-quote character (code 34), for the string literals of the
    source that contain it. *)
Definition dq : string := String "034"%char EmptyString.

(** The literal made of an opening brace, the quoted word error, a
    colon and a space, the quoted [msg] and a closing brace. *)
Definition error_json (msg : string) : string :=
  "{" +:+ dq +:+ "error" +:+ dq +:+ ": " +:+ dq +:+ msg +:+ dq +:+ "}".

(** [fmt.Sprintf] of the format made of an opening brace, the quoted word
    code, a colon and a space, a quoted [%v] and a closing brace. *)
Definition code_json (code : string) : string :=
  "{" +:+ dq +:+ "code" +:+ dq +:+ ": " +:+ dq +:+ code +:+ dq +:+ "}".

Definition fail_json (code : Z) (msg : string) : list writerCall :=
  [WriteHeader code; Header_Add "Content-Type" "application/json";
   Write (error_json msg)].

Definition fail_text (code : Z) (msg : string) : list writerCall :=
  [WriteHeader code; Header_Add "Content-Type" "text/plain"; Write msg].

Definition StatusOK : Z := 200.
Definition StatusFound : Z := 302.
Definition StatusBadRequest : Z := 400.
Definition StatusNotFound : Z := 404.
Definition StatusInternalServerError : Z := 500.

(** ** The handlers *)

(** [func StartHandler(baseURL string, store Store) http.HandlerFunc], on a
    request with body [body].  (The [fmt.Printf] of the decoding error goes
    to the process log and is not part of the response.) *)
Definition StartHandler (J : json_codec) (baseURL body : string)
  : prog (list writerCall) :=
  match Decode_startRequest J body with
  | None => Ret (fail_json StatusBadRequest "failed to parse request")
  | Some request =>
      bind token (fun r1 =>
      match r1.2 with
      | Some _ =>
          Ret (fail_json StatusInternalServerError
                         "failed to generate a random token")
      | None =>
          let initialToken := r1.1 in
          bind token (fun r2 =>
          match r2.2 with
          | Some _ =>
              Ret (fail_json StatusInternalServerError
                             "failed to generate a random token")
          | None =>
              let stateToken := r2.1 in
              let request :=
                set_Token_RedirectURL stateToken (baseURL +:+ "/callback") request in
              match Marshal_startRequest J request with
              | None =>
                  Ret (fail_json StatusInternalServerError
                                 "failed to marshal payload for storage")
              | Some payload =>
                  StoreSetEx ("i:" +:+ initialToken) payload (10 * time.Minute)
                    (fun err =>
                     match err with
                     | Some _ =>
                         Ret (fail_json StatusInternalServerError
                                        "failed to store payload")
                     | None =>
                         match Marshal_startResponse J stateToken
                                 (baseURL +:+ "/redirect/" +:+ initialToken) with
                         | None =>
                             Ret (Header_Add "Content-Type" "application/json"
                                  :: fail_json StatusInternalServerError
                                               "failed to generate response")
                         | Some jsonResponse =>
                             Ret [Header_Add "Content-Type" "application/json";
                                  Write jsonResponse]
                         end
                     end)
              end
          end)
      end)
  end.

(** [func actionURL(data startRequest) string] *)
Definition actionURL (data : startRequest) : string :=
  if bool_decide (TargetType data = "org")
  then "https://" +:+ Host data +:+ "/organizations/" +:+ TargetSlug data
       +:+ "/settings/apps/new?state=" +:+ Token data
  else "https://" +:+ Host data +:+ "/settings/apps/new?state=" +:+ Token data.

(** [func RedirectHandler(store Store) http.HandlerFunc], on a request
    whose path variable [initialKey] is [key]. *)
Definition RedirectHandler (J : json_codec) (key : string)
  : prog (list writerCall) :=
  StoreGetDel ("i:" +:+ key) (fun r =>
    match r.2 with
    | Some err =>
        if bool_decide (err = redis_Nil)
        then Ret (fail_text StatusNotFound
                    "Error: failed to find metadata for the given key")
        else Ret (fail_text StatusInternalServerError
                    "Error: failed to fetch metadata")
    | None =>
        match Decode_startRequest J r.1 with
        | None =>
            Ret (fail_text StatusInternalServerError
                   "Error: failed to parse metadata.")
        | Some m =>
            match Marshal_manifest J (Manifest m) with
            | None =>
                Ret (fail_text StatusInternalServerError
                       "Error: failed to generate manifest json")
            | Some manifestJSON =>
                Ret [tmpl_Execute {| tmpl_Action := actionURL m;
                                     tmpl_Manifest := manifestJSON |}]
            end
        end
    end).

(** [func CallbackHandler(store Store) http.HandlerFunc], on a request
    whose form values are [state] and [code] (the empty string when
    absent). *)
Definition CallbackHandler (state code : string) : prog (list writerCall) :=
  if bool_decide (state = "") || bool_decide (code = "")
  then Ret (fail_text StatusBadRequest "Error: missing state or code parameters.")
  else
    StoreSetEx ("s:" +:+ state) code (5 * time.Minute) (fun err =>
      match err with
      | Some _ => Ret (fail_text StatusBadRequest "Error: failed to store code.")
      | None => Ret [http_Redirect "/done" StatusFound]
      end).

(** [func CodeHandler(store Store) http.HandlerFunc], on a request whose
    path variable [key] is [key]. *)
Definition CodeHandler (key : string) : prog (list writerCall) :=
  StoreGetDel ("s:" +:+ key) (fun r =>
    match r.2 with
    | Some err =>
        if bool_decide (err = redis_Nil)
        then Ret (fail_json StatusNotFound "failed to find code for the given key")
        else Ret [WriteHeader StatusInternalServerError;
                  Header_Add "Content-Type" "application/json";
                  Write (dq +:+ "error" +:+ dq +:+ ": " +:+ dq
                         +:+ "failed to fetch code" +:+ dq +:+ "}")]
    | None =>
        Ret [Header_Add "Content-Type" "application/json";
             Write (code_json r.1)]
    end).

(** ** Running a handler against a store *)

Inductive store_call : Type :=
| CallGetDel (key : string)
| CallSetEx (key v : string) (ttl : time.Duration).

(** The handler's surroundings: the store it was constructed with, the
    answers the random source will give to successive reads, and the
    store calls made so far. *)
Record world (St : Type) : Type := mkWorld {
  w_store : St;
  w_entropy : nat -> list byte * option error;
  w_reads : nat;
  w_calls : list store_call
}.

Arguments mkWorld {St} _ _ _ _.
Arguments w_store {St} _.
Arguments w_entropy {St} _.
Arguments w_reads {St} _.
Arguments w_calls {St} _.

(** One request served at instant [now]. *)
Fixpoint run {St : Type} `{Store St} {A : Type}
    (now : time.Time) (p : prog A) (w : world St) : A * world St :=
  match p with
  | Ret a => (a, w)
  | RandRead n k =>
      run now (k (w_entropy w (w_reads w)))
          (mkWorld (w_store w) (w_entropy w) (S (w_reads w)) (w_calls w))
  | StoreGetDel key k =>
      let r := Store_GetDel now (w_store w) key in
      run now (k r.1)
          (mkWorld r.2 (w_entropy w) (w_reads w) (w_calls w ++ [CallGetDel key]))
  | StoreSetEx key v ttl k =>
      let r := Store_SetEx now (w_store w) key v ttl in
      run now (k r.1)
          (mkWorld r.2 (w_entropy w) (w_reads w) (w_calls w ++ [CallSetEx key v ttl]))
  end.

(** Every store call the program can make, whatever its collaborators
    answer, satisfies [P]. *)
Fixpoint calls_all {A : Type} (P : store_call -> Prop) (p : prog A) : Prop :=
  match p with
  | Ret _ => True
  | RandRead n k => ∀ r, calls_all P (k r)
  | StoreGetDel key k => P (CallGetDel key) ∧ ∀ r, calls_all P (k r)
  | StoreSetEx key v ttl k => P (CallSetEx key v ttl) ∧ ∀ r, calls_all P (k r)
  end.

Definition call_key (c : store_call) : string :=
  match c with CallGetDel k => k | CallSetEx k _ _ => k end.

(** [type redisStore struct { r *redis.Client }]: both methods hand the
    call to the client, whose behaviour is that of the server behind it. *)
Record redis_Client (C : Type) : Type := mkClient {
  redis_GetDel : time.Time -> C -> string -> (string * option error) * C;
  redis_SetEX : time.Time -> C -> string -> string -> time.Duration ->
                option error * C
}.

Arguments redis_GetDel {C} _ _ _ _.
Arguments redis_SetEX {C} _ _ _ _ _ _.

Definition redisStore {C : Type} (r : redis_Client C) : Store C := {|
  Store_GetDel := redis_GetDel r;
  Store_SetEx := redis_SetEX r
|}.

(** A client whose server cannot be reached: every call fails with a
    transport error. *)
Definition unreachable : redis_Client unit := {|
  redis_GetDel := fun _ c _ =>
    (("", Some (other_error "dial tcp: connection refused")), c);
  redis_SetEX := fun _ c _ _ _ =>
    (Some (other_error "dial tcp: connection refused"), c)
|}.

(** ** Fixtures for examples *)

(** A codec given by two finite tables of (text, value) pairs: a text
    decodes to the first value listed with it, and a value is encoded as
    the first text listed with it. *)
Definition table_codec (reqs : list (string * startRequest))
    (mans : list (string * manifest)) : json_codec := {|
  Decode_startRequest := fun s =>
    snd <$> List.find (fun p => bool_decide (p.1 = s)) reqs;
  Marshal_startRequest := fun r =>
    fst <$> List.find (fun p => bool_decide (p.2 = r)) reqs;
  Marshal_manifest := fun m =>
    fst <$> List.find (fun p => bool_decide (p.2 = m)) mans;
  Marshal_startResponse := fun key url =>
    Some ("{" +:+ dq +:+ "key" +:+ dq +:+ ":" +:+ dq +:+ key +:+ dq +:+ ","
          +:+ dq +:+ "url" +:+ dq +:+ ":" +:+ dq +:+ url +:+ dq +:+ "}")
|}.

(** A random source that answers every read with [n] bytes [b]. *)
Definition constant_entropy (b : byte) : nat -> list byte * option error :=
  fun _ => (replicate 32 b, None).

(** A random source that fails. *)
Definition no_entropy : nat -> list byte * option error :=
  fun _ => ([], Some (other_error "getrandom: resource unavailable")).

(** A random source whose first read gives 32 bytes 01 and whose later
    reads give 32 bytes 02. *)
Definition demo_entropy : nat -> list byte * option error :=
  fun n => match n with
           | O => (replicate 32 Byte.x01, None)
           | S _ => (replicate 32 Byte.x02, None)
           end.

Definition demo_I : string :=
  "0101010101010101010101010101010101010101010101010101010101010101".
Definition demo_S : string :=
  "0202020202020202020202020202020202020202020202020202020202020202".

Definition demo_base : string := "https://gamf.example".

(** The request of scenario A, with a redirect URL of the caller's own. *)
Definition demo_manifest : manifest :=
  mkManifest "demo" "https://demo.example" "" "https://caller.example/hook"
             [] "" false [] ∅.

Definition demo_request : startRequest :=
  mkStartRequest demo_manifest "user" "alice" "github.example" "".

Definition demo_stored : startRequest :=
  set_Token_RedirectURL demo_S (demo_base +:+ "/callback") demo_request.

(** The stored record as [encoding/json] reads it back.  [demo_request]
    has no [hook_attributes], so the field is a nil [json.RawMessage];
    [json.Marshal] writes it as null, and decoding null into a
    [json.RawMessage] gives the four bytes null.  The record read back is
    therefore not the record that was written, though both have the same
    encoding. *)
Definition demo_back : startRequest :=
  mkStartRequest
    (mkManifest "demo" "https://demo.example" "null"
                "https://gamf.example/callback" [] "" false [] ∅)
    "user" "alice" "github.example" demo_S.

(** Two more initiation records: an organization target and a target type
    outside the documented ones. *)
Definition org_record : startRequest :=
  mkStartRequest demo_manifest "org" "acme" "github.example" demo_S.

Definition team_record : startRequest :=
  mkStartRequest demo_manifest "team" "acme" "github.example" demo_S.

(** The request of scenario A again, with one more member in its manifest,
    [setup_url], for which [type manifest struct] has no field: the
    decoder skips it. *)
Definition demo_body_extra : string :=
  "{'manifest':{'name':'demo','setup_url':'https://caller.example/setup','redirect_url':'https://caller.example/hook'},'target_type':'user'}".

(** The codec of the examples.  Its texts are abridged (single quotes for
    double quotes, and only the members that matter shown).  The stored
    record decodes to [demo_back], not to [demo_stored] which was encoded:
    both are listed with the same text, and so are their manifests. *)
Definition demo_codec : json_codec :=
  table_codec
    [("{'manifest':{'name':'demo','redirect_url':'https://caller.example/hook'},'target_type':'user'}",
      demo_request);
     ("{'manifest':{'name':'demo','redirect_url':'https://gamf.example/callback'},'target_type':'user','token':'02..02'}",
      demo_back);
     ("{'manifest':{'name':'demo','redirect_url':'https://gamf.example/callback'},'target_type':'user','token':'02..02'}",
      demo_stored);
     ("{'manifest':{'name':'demo'},'target_type':'org','target_slug':'acme'}",
      org_record);
     ("{'manifest':{'name':'demo'},'target_type':'team','target_slug':'acme'}",
      team_record);
     (demo_body_extra, demo_request)]
    [("{'name':'demo','redirect_url':'https://caller.example/hook'}",
      demo_manifest);
     ("{'name':'demo','redirect_url':'https://gamf.example/callback'}",
      Manifest demo_stored);
     ("{'name':'demo','redirect_url':'https://gamf.example/callback'}",
      Manifest demo_back)].

Definition demo_body : string :=
  "{'manifest':{'name':'demo','redirect_url':'https://caller.example/hook'},'target_type':'user'}".

(** A fresh in-process store, the source [demo_entropy], nothing called. *)
Definition demo_world : world (gmap string value) :=
  mkWorld memStore.New demo_entropy 0 [].

(** ** Reading the answer of [/code] as JSON

    What a JSON reader finds in a body of the shape written by
    [CodeHandler]: after the opening brace, the member name and the
    opening quote, a string runs to the first unescaped double quote; a
    backslash introduces a two-character escape; a raw control character
    is not allowed; and the closing brace must follow the closing quote.
    (Escapes by code point are not read: a body using one is rejected.
    A byte above 127 is taken as it is, without the check of the UTF-8
    encoding that [encoding/json] makes; the reader is used on ASCII
    bodies only.) *)

Fixpoint strip_prefix (pre s : string) : option string :=
  match pre, s with
  | EmptyString, _ => Some s
  | String a pre', String b s' =>
      if bool_decide (a = b) then strip_prefix pre' s' else None
  | String _ _, EmptyString => None
  end.

Definition json_unescape (c : ascii) : option ascii :=
  if bool_decide (c = "034"%char) then Some "034"%char        (* quote *)
  else if bool_decide (c = "092"%char) then Some "092"%char   (* backslash *)
  else if bool_decide (c = "/"%char) then Some "/"%char
  else if bool_decide (c = "b"%char) then Some "008"%char
  else if bool_decide (c = "f"%char) then Some "012"%char
  else if bool_decide (c = "n"%char) then Some "010"%char
  else if bool_decide (c = "r"%char) then Some "013"%char
  else if bool_decide (c = "t"%char) then Some "009"%char
  else None.

(** The characters of a JSON string up to its closing quote, and the text
    after that quote. *)
Fixpoint json_string_body (s : string) : option (string * string) :=
  match s with
  | EmptyString => None
  | String c rest =>
      if bool_decide (c = "034"%char) then Some ("", rest)
      else if bool_decide (c = "092"%char) then
        match rest with
        | EmptyString => None
        | String e rest' =>
            match json_unescape e, json_string_body rest' with
            | Some c', Some (body, tail) => Some (String c' body, tail)
            | _, _ => None
            end
        end
      else if (nat_of_ascii c <? 32)%nat then None
      else
        match json_string_body rest with
        | Some (body, tail) => Some (String c body, tail)
        | None => None
        end
  end.

(** The value of the member [code] of the object in [body], if [body] is
    such an object. *)
Definition read_code_response (body : string) : option string :=
  match strip_prefix ("{" +:+ dq +:+ "code" +:+ dq +:+ ": " +:+ dq) body with
  | None => None
  | Some rest =>
      match json_string_body rest with
      | Some (c, tail) => if bool_decide (tail = "}") then Some c else None
      | None => None
      end
  end.

(** An ASCII character that stands for itself inside a JSON string: from
    the space (32) to DEL (127), the double quote and the backslash
    excepted.  (A byte above 127 stands for itself only as part of valid
    UTF-8: a reader that checks the encoding replaces any other by
    U+FFFD.) *)
Definition json_plain_char (c : ascii) : bool :=
  negb (bool_decide (c = "034"%char)) && negb (bool_decide (c = "092"%char))
  && negb (nat_of_ascii c <? 32)%nat && (nat_of_ascii c <? 128)%nat.

(** ** Histories of the in-process store *)

(** The last operation of [os] on [key], if any. *)
Definition last_on (key : string) (os : list op) : option op :=
  foldl (fun acc o => if bool_decide (op_key o = key) then Some o else acc)
        None os.

Definition is_OpSetEx (o : op) : bool :=
  match o with OpSetEx _ _ _ _ => true | OpGetDel _ _ => false end.

(** The number of [SetEx] calls in [os]. *)
Definition count_SetEx (os : list op) : nat :=
  length (List.filter is_OpSetEx os).

(** ** Measures of a concurrent run *)

(** The statements a caller at [p] may still execute, at most. *)
Definition remaining (p : Concurrent.pc) : nat :=
  match p with
  | Concurrent.AtLock => 5
  | Concurrent.AtLookup => 4
  | Concurrent.AtCheck _ => 3
  | Concurrent.AtDelete _ => 2
  | Concurrent.AtUnlock _ => 1
  | Concurrent.Returned _ => 0
  end.

Definition work (ts : list (string * Concurrent.pc)) : nat :=
  sum_list ((fun t => remaining t.2) <$> ts).

Definition is_Run (a : Concurrent.action) : bool :=
  match a with Concurrent.Run _ => true | Concurrent.Tick _ => false end.

(** The number of statements executed in a schedule. *)
Definition count_Run (acts : list Concurrent.action) : nat :=
  length (List.filter is_Run acts).

(** What a caller on key [k] holds comes from the record stored under [k]
    in [d0]. *)
Definition sourced (d0 : gmap string value) (k : string) (p : Concurrent.pc) : Prop :=
  match p with
  | Concurrent.AtCheck v => d0 !! k = Some v
  | Concurrent.AtDelete (x, None)
  | Concurrent.AtUnlock (x, None)
  | Concurrent.Returned (x, None) => ∃ v, d0 !! k = Some v ∧ val v = x
  | _ => True
  end.

(** ** The static pages *)





(** ** What reaches the client *)


(** Every response the program can produce, whatever its collaborators
    answer, satisfies [P]. *)
Fixpoint results_all {A : Type} (P : A -> Prop) (p : prog A) : Prop :=
  match p with
  | Ret a => P a
  | RandRead n k => ∀ r, results_all P (k r)
  | StoreGetDel key k => ∀ r, results_all P (k r)
  | StoreSetEx key v ttl k => ∀ r, results_all P (k r)
  end.

(** ** The process environment

    The environment is a map from variable names to values;
    [os.LookupEnv] is its lookup (a variable set to the empty string is
    set). *)

(** [%v] of a [[]string]: the elements separated by spaces, in brackets. *)
Definition fmt_strings (l : list string) : string :=
  "[" +:+ String.concat " " l +:+ "]".

(** The loop of [requireEnv], from the values of [result] and [missing]
    at its start. *)
Fixpoint requireEnv_loop (env : gmap string string) (names : list string)
    (result : gmap string string) (missing : list string)
  : gmap string string * list string :=
  match names with
  | [] => (result, missing)
  | name :: rest =>
      match env !! name with
      | None => requireEnv_loop env rest result (missing ++ [name])
      | Some v => requireEnv_loop env rest (<[name := v]> result) missing
      end
  end.

(** [func requireEnv(names ...string) (map[string]string, error)] *)
Definition requireEnv (env : gmap string string) (names : list string)
  : gmap string string * option error :=
  let r := requireEnv_loop env names ∅ [] in
  if (0 <? length r.2)%nat
  then (∅, Some (other_error ("variables not set: " +:+ fmt_strings r.2)))
  else (r.1, None).

Fixpoint has_char (c : ascii) (s : string) : bool :=
  match s with
  | EmptyString => false
  | String c' s' => bool_decide (c = c') || has_char c s'
  end.

(** [os.Setenv]: the key must be non-empty and free of the equals sign
    and of the NUL character, the value free of NUL; otherwise the call
    fails and sets nothing. *)
Definition os_Setenv (env : gmap string string) (key v : string)
  : option error * gmap string string :=
  if bool_decide (key = "") || has_char "="%char key || has_char "000"%char key
     || has_char "000"%char v
  then (Some (other_error "setenv: invalid argument"), env)
  else (None, <[key := v]> env).

(** The map literal [defaults] of [defaultEnv]. *)
Definition defaults : list (string * string) :=
  [("GAMF_HOST", "localhost:1123");
   ("GAMF_URL", "http://localhost:1123");
   ("GAMF_ENV", "development");
   ("PORT", "1123");
   ("REDIS_URL", "redis://localhost:6379")].

(** [func defaultEnv() error], the loop over the entries of [defaults]
    taken in the order [order] (the iteration order of a Go map is not
    fixed, so [order] is any arrangement of [defaults]). *)
Fixpoint defaultEnv (order : list (string * string)) (env : gmap string string)
  : option error * gmap string string :=
  match order with
  | [] => (None, env)
  | (k, v) :: rest =>
      match env !! k with
      | Some _ => defaultEnv rest env
      | None =>
          let r := os_Setenv env k v in
          match r.1 with
          | Some err => (Some err, r.2)
          | None => defaultEnv rest r.2
          end
      end
  end.

(** The variable is not set. *)
Definition unset (env : gmap string string) (name : string) : bool :=
  bool_decide (env !! name = None).

(** The names [realMain] requires. *)
Definition required_names : list string :=
  ["PORT"; "GAMF_URL"; "GAMF_HOST"; "GAMF_ENV"; "REDIS_URL"].

(** * Part II: properties *)

(** ** [memStore], one call at a time *)

Section memStore_sequential.
Implicit Types (d : gmap string value) (key : string) (now : time.Time).

Lemma GetDel_absent d key now :
  d !! key = None -> memStore.GetDel now d key = (NotFound, d).
Proof. intros H. unfold memStore.GetDel. by rewrite H. Qed.

Lemma GetDel_state d key now :
  (memStore.GetDel now d key).2 = delete key d.
Proof.
  unfold memStore.GetDel. destruct (d !! key) as [v|] eqn:E.
  - by destruct (time.After now (exp v)).
  - simpl. symmetry. by apply delete_id.
Qed.

Lemma GetDel_removes d key now :
  (memStore.GetDel now d key).2 !! key = None.
Proof. rewrite GetDel_state. apply lookup_delete_eq. Qed.

Lemma GetDel_other d key key' now :
  key ≠ key' -> (memStore.GetDel now d key).2 !! key' = d !! key'.
Proof. intros Hne. rewrite GetDel_state. by apply lookup_delete_ne. Qed.

Lemma SetEx_lookup d key v ttl now :
  (memStore.SetEx now d key v ttl).2 !! key
  = Some {| val := v; exp := time.Add now ttl |}.
Proof. apply lookup_insert_eq. Qed.

Lemma SetEx_other d key key' v ttl now :
  key ≠ key' -> (memStore.SetEx now d key v ttl).2 !! key' = d !! key'.
Proof. intros. by apply lookup_insert_ne. Qed.

Lemma run_ops_cons o os d : run_ops (o :: os) d = run_ops os (run_op o d).
Proof. reflexivity. Qed.

(** Once the key holds no record, it holds none after any operations
    that do not write it again. *)
Lemma run_ops_stays_absent os d key :
  d !! key = None ->
  Forall (fun o => ¬ is_SetEx_on key o) os ->
  run_ops os d !! key = None.
Proof.
  revert d. induction os as [|o os IH]; intros d Hd Hos; [done|].
  inversion Hos as [|? ? Ho Hos']; subst.
  rewrite run_ops_cons. apply IH; [|done].
  destruct o as [now k|now k v ttl]; unfold run_op.
  - destruct (decide (k = key)) as [->|Hne].
    + apply GetDel_removes.
    + by rewrite GetDel_other.
  - rewrite SetEx_other; [done|]. intros ->. by apply Ho.
Qed.

(** Operations on other keys leave the record of [key] as it is. *)
Lemma run_ops_other os d key :
  Forall (fun o => op_key o ≠ key) os ->
  run_ops os d !! key = d !! key.
Proof.
  revert d. induction os as [|o os IH]; intros d Hos; [done|].
  inversion Hos as [|? ? Ho Hos']; subst.
  rewrite run_ops_cons, IH; [|done].
  destruct o as [now k|now k v ttl]; unfold run_op; simpl in Ho.
  - by apply GetDel_other.
  - by apply SetEx_other.
Qed.

End memStore_sequential.

(** C2.  [GetDel] on a key that has no record, or whose record was
    consumed by an earlier [GetDel], answers [NotFound] (the empty string
    with [redis.Nil], no other error and no stale value) and leaves the
    store as it is; this stays so across any later operations, at any
    instants, as long as none of them is a [SetEx] on that key. *)
Theorem GetDel_absent_or_consumed
    (d : gmap string value) (key : string) (os : list op) (now : time.Time) :
  (d !! key = None ∨ ∃ d0 t0, d = (memStore.GetDel t0 d0 key).2) ->
  Forall (fun o => ¬ is_SetEx_on key o) os ->
  memStore.GetDel now (run_ops os d) key = (NotFound, run_ops os d).
Proof.
  intros Hd Hos. apply GetDel_absent, run_ops_stays_absent; [|done].
  destruct Hd as [Hd|(d0 & t0 & ->)]; [done|]. apply GetDel_removes.
Qed.

Lemma GetDel_absent_or_consumed_witness :
  let d := (memStore.GetDel 1 (<["k" := mkValue 100 "v"]> ∅) "k").2 in
  let os := [OpGetDel 3 "k"; OpSetEx 4 "j" "x" 10; OpGetDel 5 "j"] in
  (memStore.GetDel 1 (<["k" := mkValue 100 "v"]> ∅) "k").1 = ("v", None) ∧
  memStore.GetDel 7 (run_ops os d) "k" = (NotFound, run_ops os d).
Proof.
  split; [reflexivity|].
  apply GetDel_absent_or_consumed.
  - right. by eexists _, _.
  - repeat constructor; simpl; try tauto. discriminate.
Defined.

(** C3, the boundary instant.  A record written at instant 0 with a TTL
    of 5 is still handed out by a [GetDel] at instant 5, that is at a
    time equal to the TTL after the write: the answer is the value and
    not [NotFound]. *)
Lemma GetDel_at_expiry_instant :
  5 >= 5 ∧
  (memStore.GetDel (0 + 5) (memStore.SetEx 0 ∅ "k" "v" 5).2 "k").1 = ("v", None) ∧
  (memStore.GetDel (0 + 5) (memStore.SetEx 0 ∅ "k" "v" 5).2 "k").1 ≠ NotFound.
Proof. split; [lia|]. split; [reflexivity|]. vm_compute. discriminate. Qed.

(** C3, as the code has it.  A record written by [SetEx] at instant [w]
    with TTL [ttl] and not touched since (operations on other keys may
    come in between) is answered by a [GetDel] at instant [w + delta] with
    the value when [delta <= ttl] and with [NotFound] when
    [delta > ttl]; in both cases that access deletes the record. *)
Theorem SetEx_GetDel_expiry
    (d : gmap string value) (w : time.Time) (key v : string)
    (ttl : time.Duration) (os : list op) (delta : Z) :
  Forall (fun o => op_key o ≠ key) os ->
  memStore.GetDel (w + delta) (run_ops os (memStore.SetEx w d key v ttl).2) key
  = (if bool_decide (delta <= ttl) then (v, None) else NotFound,
     delete key (run_ops os (memStore.SetEx w d key v ttl).2)).
Proof.
  intros Hos. unfold memStore.GetDel at 1.
  rewrite run_ops_other, SetEx_lookup by done. simpl.
  unfold time.After, time.Add.
  repeat case_bool_decide; try lia; reflexivity.
Qed.

Lemma SetEx_GetDel_expiry_witness :
  let d1 := run_ops [OpSetEx 2 "j" "x" 1; OpGetDel 3 "j"]
              (memStore.SetEx 0 ∅ "k" "v" 5).2 in
  memStore.GetDel (0 + 5) d1 "k" = (("v", None), delete "k" d1) ∧
  memStore.GetDel (0 + 6) d1 "k" = (NotFound, delete "k" d1).
Proof.
  split.
  - apply (SetEx_GetDel_expiry ∅ 0 "k" "v" 5 _ 5).
    repeat constructor; simpl; discriminate.
  - apply (SetEx_GetDel_expiry ∅ 0 "k" "v" 5 _ 6).
    repeat constructor; simpl; discriminate.
Defined.

(** ** Concurrent callers: the mutex makes [GetDel] single-use *)

Section single_redemption.
Import Concurrent.
Variables (k : string) (v0 : value).

Ltac pc_cases :=
  intros;
  repeat match goal with
         | H : _ ∨ _ |- _ => destruct H
         | H : _ ∧ _ |- _ => destruct H
         end;
  simplify_eq; eauto 6; try solve [intuition (eauto; congruence)].

Ltac lookup_upd H :=
  let Hne := fresh "Hne" in
  apply list_lookup_insert_Some in H as [(<- & H & _)|(Hne & H)].

Lemma step_lock_inv a s s' :
  lock_inv s -> step a s = Some s' -> lock_inv s'.
Proof.
  intros [h Hh] Hstep. destruct a as [delta|i]; simpl in Hstep.
  { case_bool_decide; simplify_eq. by exists h. }
  destruct (threads s !! i) as [[key p]|] eqn:Hi; [|done].
  destruct p as [| |v|r|r|r].
  - destruct (locked s) eqn:Hl; simplify_eq. exists i. simpl.
    intros j key' p' Hj Hheld. lookup_upd Hj; [by simplify_eq|].
    destruct (Hh _ _ _ Hj Hheld). congruence.
  - destruct (Hh _ _ _ Hi eq_refl) as [Hl ->].
    exists h. destruct (d s !! key); simplify_eq; simpl;
      intros j key' p' Hj Hheld; (lookup_upd Hj; [by simplify_eq|]); eauto.
  - destruct (Hh _ _ _ Hi eq_refl) as [Hl ->].
    exists h. destruct (time.After _ _); simplify_eq; simpl;
      intros j key' p' Hj Hheld; (lookup_upd Hj; [by simplify_eq|]); eauto.
  - destruct (Hh _ _ _ Hi eq_refl) as [Hl ->]. simplify_eq.
    exists h. simpl. intros j key' p' Hj Hheld. lookup_upd Hj; [by simplify_eq|]. eauto.
  - destruct (Hh _ _ _ Hi eq_refl) as [Hl ->]. simplify_eq.
    exists h. simpl. intros j key' p' Hj Hheld. lookup_upd Hj; [by simplify_eq|].
    destruct (Hh _ _ _ Hj Hheld). congruence.
  - done.
Qed.


Lemma before_delete_mono t t' p :
  t <= t' -> before_delete v0 t p -> before_delete v0 t' p.
Proof. unfold before_delete. intros ? H. intuition lia. Qed.

(** A statement of caller [i] that leaves the record of [k] in place. *)
Lemma record_inv_update s i key p p' d' lk :
  record_inv k v0 s ->
  threads s !! i = Some (key, p) ->
  d' !! k = d s !! k ->
  (key = k ->
   match d s !! k with
   | Some _ => before_delete v0 (now s) p -> before_delete v0 (now s) p'
   | None => ∀ w, after_delete v0 w i p ->
       (w = Some i -> p = AtUnlock (win v0) ∨ p = Returned (win v0)) ->
       after_delete v0 w i p' ∧
       (w = Some i -> p' = AtUnlock (win v0) ∨ p' = Returned (win v0))
   end) ->
  record_inv k v0 (mkState d' lk (now s) (<[i := (key, p')]> (threads s))).
Proof.
  intros Hrec Hi Hd Hp. unfold record_inv in *. simpl. rewrite Hd.
  assert (i < length (threads s))%nat as Hlen by (by eapply lookup_lt_Some).
  destruct (d s !! k) as [v|] eqn:Hk.
  - destruct Hrec as [-> Hall]. split; [done|].
    intros j q Hj. lookup_upd Hj; [|by eauto].
    simplify_eq. apply Hp; eauto.
  - destruct Hrec as (w & Hall & Hw & Hexp). exists w.
    assert (key = k -> w = Some i ->
            p = AtUnlock (win v0) ∨ p = Returned (win v0)) as Hwi.
    { intros -> Hwi. destruct (Hw _ Hwi) as (q & Hq & ?). by simplify_eq. }
    split_and!; [| |done].
    + intros j q Hj. lookup_upd Hj; [|by eauto].
      simplify_eq. apply Hp; eauto.
    + intros j ->. destruct (Hw _ eq_refl) as (q & Hq & Hq').
      destruct (decide (j = i)) as [->|Hne].
      * simplify_eq. exists p'. rewrite list_lookup_insert_eq by done.
        split; [done|]. eapply Hp; eauto.
      * exists q. by rewrite list_lookup_insert_ne.
Qed.

Lemma step_record_inv a s s' :
  lock_inv s -> record_inv k v0 s -> step a s = Some s' -> record_inv k v0 s'.
Proof.
  intros [h Hh] Hrec Hstep. destruct a as [delta|i]; simpl in Hstep.
  { case_bool_decide; simplify_eq. unfold record_inv in *. simpl.
    destruct (d s !! k) as [v|].
    - destruct Hrec as [-> Hall]. split; [done|]. intros j q Hj.
      eapply before_delete_mono; [|by eauto]. lia.
    - destruct Hrec as (w & ? & ? & Hexp). exists w. split_and!; [done..|].
      intros Hw. specialize (Hexp Hw). lia. }
  destruct (threads s !! i) as [[key p]|] eqn:Hi; [|done].
  destruct p as [| |v|r|r|r].
  - destruct (locked s) eqn:Hl; simplify_eq.
    eapply record_inv_update; [done..|]. intros ->.
    destruct (d s !! k).
    + intros _. unfold before_delete. tauto.
    + intros w _ Hw. split; [unfold after_delete; tauto|].
      intros Hwi. destruct (Hw Hwi); done.
  - destruct (d s !! key) as [v|] eqn:Hk; simplify_eq.
    + eapply record_inv_update; [done..|]. intros ->. rewrite Hk.
      intros _. unfold record_inv in Hrec. rewrite Hk in Hrec.
      destruct Hrec as [-> _]. unfold before_delete. tauto.
    + eapply record_inv_update; [done..|]. intros ->. rewrite Hk.
      intros w _ Hw.
      assert (w ≠ Some i) by (intros Hwi; destruct (Hw Hwi); done).
      split; [unfold after_delete; tauto|done].
  - assert (s' = set_thread s i key
              (if time.After (now s) (exp v) then AtDelete NotFound
               else AtDelete (val v, None))) as ->
      by (destruct (time.After _ _); by simplify_eq).
    eapply record_inv_update; [done..|]. intros ->.
    destruct (d s !! k).
    + intros Hb. assert (v = v0) as ->
        by (unfold before_delete in Hb; pc_cases).
      unfold before_delete, time.After. case_bool_decide; tauto.
    + intros w Ha. unfold after_delete in Ha. pc_cases.
  - simplify_eq. destruct (decide (key = k)) as [->|Hne].
    2: { eapply record_inv_update; [done..| |done]. by apply lookup_delete_ne. }
    assert (i < length (threads s))%nat as Hlen by (by eapply lookup_lt_Some).
    destruct (Hh _ _ _ Hi eq_refl) as [Hl ->].
    unfold record_inv in *. simpl. rewrite lookup_delete_eq.
    destruct (d s !! k) as [v|] eqn:Hk.
    2: { destruct Hrec as (w & Hall & _). specialize (Hall _ _ Hi).
         unfold after_delete in Hall. pc_cases. }
    destruct Hrec as [-> Hall].
    assert (∀ j q, h ≠ j -> threads s !! j = Some (k, q) ->
                   q = AtLock ∨ q = AtLookup) as Hothers.
    { intros j q Hne Hj. specialize (Hall _ _ Hj). unfold before_delete in Hall.
      destruct Hall as [->|[->|[->|[->|[-> _]]]]]; eauto;
        destruct (Hh _ _ _ Hj eq_refl); congruence. }
    pose proof (Hall _ _ Hi) as Hb. unfold before_delete in Hb.
    destruct Hb as [?|[?|[?|[Hr|[Hr Hexp]]]]]; try done; simplify_eq.
    + exists (Some h). split_and!; [| |done].
      * intros j q Hj. lookup_upd Hj.
        -- simplify_eq. unfold after_delete. tauto.
        -- destruct (Hothers _ _ Hne Hj); unfold after_delete; tauto.
      * intros j [= <-]. eexists. rewrite list_lookup_insert_eq by done. eauto.
    + exists None. split_and!; [|done..].
      intros j q Hj. lookup_upd Hj.
      * simplify_eq. unfold after_delete. right; right; right. by eauto.
      * destruct (Hothers _ _ Hne Hj); unfold after_delete; tauto.
  - simplify_eq. eapply record_inv_update; [done..|]. intros ->.
    destruct (d s !! k).
    + unfold before_delete. pc_cases.
    + intros w Ha Hw. unfold after_delete in *.
      destruct Ha as [?|[?|[[[?|?] ?]|[[?|?] ?]]]]; simplify_eq; pc_cases.
  - done.
Qed.

Lemma step_Inv a s s' : Inv k v0 s -> step a s = Some s' -> Inv k v0 s'.
Proof.
  intros [Hl Hr] Hstep. split.
  - by eapply step_lock_inv.
  - by eapply step_record_inv.
Qed.

Lemma exec_Inv acts s s' : Inv k v0 s -> exec acts s = Some s' -> Inv k v0 s'.
Proof.
  revert s. induction acts as [|a acts IH]; intros s HI Hex; simpl in Hex.
  - by simplify_eq.
  - destruct (step a s) as [s1|] eqn:Hs; [|done]. eauto using step_Inv.
Qed.


Lemma Inv_init d0 t0 ts :
  d0 !! k = Some v0 ->
  Forall (fun t => t.2 = AtLock) ts ->
  Inv k v0 (mkState d0 false t0 ts).
Proof.
  intros Hk Hts. rewrite Forall_lookup in Hts. split.
  - exists 0%nat. simpl. intros i key p Hi Hheld.
    specialize (Hts _ _ Hi). simpl in Hts. by subst.
  - unfold record_inv. simpl. rewrite Hk. split; [done|].
    intros i p Hi. specialize (Hts _ _ Hi). simpl in Hts. subst.
    unfold before_delete. tauto.
Qed.

(** What the invariant says about the callers that have returned. *)
Lemma Inv_returned s i r :
  Inv k v0 s -> threads s !! i = Some (k, Returned r) ->
  d s !! k = None ∧ (r = win v0 ∨ r = NotFound).
Proof.
  intros [_ Hrec] Hi. unfold record_inv in Hrec.
  destruct (d s !! k) as [v|].
  - destruct Hrec as [_ Hall]. specialize (Hall _ _ Hi).
    unfold before_delete in Hall. pc_cases.
  - split; [done|]. destruct Hrec as (w & Hall & _).
    specialize (Hall _ _ Hi). unfold after_delete in Hall. pc_cases.
Qed.

Lemma Inv_at_most_one s i j :
  Inv k v0 s ->
  threads s !! i = Some (k, Returned (win v0)) ->
  threads s !! j = Some (k, Returned (win v0)) ->
  i = j.
Proof.
  intros HI Hi Hj. destruct (Inv_returned _ _ _ HI Hi) as [Hk _].
  destruct HI as [_ Hrec]. unfold record_inv in Hrec. rewrite Hk in Hrec.
  destruct Hrec as (w & Hall & _).
  pose proof (Hall _ _ Hi) as Ha. pose proof (Hall _ _ Hj) as Hb.
  unfold after_delete, win, NotFound in Ha, Hb. pc_cases.
Qed.

Lemma Inv_exactly_one s i0 p0 :
  Inv k v0 s ->
  threads s !! i0 = Some (k, p0) ->
  Forall returned (threads s) ->
  now s <= exp v0 ->
  ∃ i, threads s !! i = Some (k, Returned (win v0)) ∧
       ∀ j p, j ≠ i -> threads s !! j = Some (k, p) -> p = Returned NotFound.
Proof.
  intros HI Hi0 Hret Hlive. rewrite Forall_lookup in Hret.
  destruct (Hret _ _ Hi0) as [r0 Hr0]. simpl in Hr0. subst p0.
  destruct (Inv_returned _ _ _ HI Hi0) as [Hk _].
  destruct HI as [_ Hrec]. unfold record_inv in Hrec. rewrite Hk in Hrec.
  destruct Hrec as (w & Hall & Hw & Hexp).
  destruct w as [i|]; [|specialize (Hexp eq_refl); lia].
  exists i. destruct (Hw _ eq_refl) as (p & Hp & Hp'). split.
  - destruct (Hret _ _ Hp) as [r Hr]. simpl in Hr. subst p.
    destruct Hp' as [?|?]; by simplify_eq.
  - intros j q Hne Hj. destruct (Hret _ _ Hj) as [r Hr]. simpl in Hr. subst q.
    specialize (Hall _ _ Hj). unfold after_delete in Hall. pc_cases.
Qed.

End single_redemption.

Section callers.
Import Concurrent.

(** A caller keeps its key, and callers neither appear nor vanish. *)
Lemma step_keys a s s' :
  step a s = Some s' -> (threads s').*1 = (threads s).*1.
Proof.
  intros Hstep. destruct a as [delta|i]; simpl in Hstep.
  { case_bool_decide; by simplify_eq. }
  destruct (threads s !! i) as [[key p]|] eqn:Hi; [|done].
  assert (∀ q, (<[i := (key, q)]> (threads s)).*1 = (threads s).*1) as Hupd.
  { intros q. rewrite list_fmap_insert. apply list_insert_id.
    by rewrite list_lookup_fmap, Hi. }
  destruct p; repeat case_match; simplify_eq; simpl; by rewrite ?Hupd.
Qed.

Lemma exec_keys acts s s' :
  exec acts s = Some s' -> (threads s').*1 = (threads s).*1.
Proof.
  revert s. induction acts as [|a acts IH]; intros s Hex; simpl in Hex.
  - by simplify_eq.
  - destruct (step a s) as [s1|] eqn:Hs; [|done].
    rewrite (IH _ Hex). by eapply step_keys.
Qed.

(** The clock never runs backwards. *)
Lemma step_now a s s' : step a s = Some s' -> now s <= now s'.
Proof.
  intros Hstep. destruct a as [delta|i]; simpl in Hstep.
  { case_bool_decide; simplify_eq. simpl. lia. }
  destruct (threads s !! i) as [[key p]|] eqn:Hi; [|done].
  destruct p; repeat case_match; simplify_eq; simpl; lia.
Qed.

Lemma callers_lookup n key i :
  (i < n)%nat -> callers n key !! i = Some (key, AtLock).
Proof. intros. unfold callers. by apply lookup_replicate_2. Qed.

Lemma exec_callers_lookup acts n key d0 t0 s i :
  exec acts (mkState d0 false t0 (callers n key)) = Some s ->
  (i < n)%nat -> ∃ p, threads s !! i = Some (key, p).
Proof.
  intros Hex Hi. apply exec_keys in Hex. simpl in Hex.
  pose proof (callers_lookup n key i Hi) as Hc.
  assert ((callers n key).*1 !! i = Some key) as Hk
    by (by rewrite list_lookup_fmap, Hc).
  rewrite <- Hex, list_lookup_fmap in Hk.
  destruct (threads s !! i) as [[key' p]|]; simpl in Hk; simplify_eq. eauto.
Qed.

End callers.

Lemma exec_cons a acts (s s1 : Concurrent.state) :
  Concurrent.step a s = Some s1 ->
  Concurrent.exec (a :: acts) s = Concurrent.exec acts s1.
Proof. intros H. simpl. by rewrite H. Qed.

Lemma exec_nil (s : Concurrent.state) : Concurrent.exec [] s = Some s.
Proof. reflexivity. Qed.

Local Arguments Concurrent.exec : simpl never.

(** X7.  A caller running alone from [ms.m.Lock()] to its return, with
    the mutex free and the clock still, performs exactly the transition
    [memStore.GetDel] of the one-call-at-a-time reading: the same map
    afterwards, the same result, the mutex free again. *)
Lemma solo_GetDel (s : Concurrent.state) (i : nat) (key : string) :
  Concurrent.threads s !! i = Some (key, Concurrent.AtLock) ->
  Concurrent.locked s = false ->
  ∃ acts,
    Concurrent.exec acts s =
    Some (Concurrent.mkState
            (memStore.GetDel (Concurrent.now s) (Concurrent.d s) key).2
            false (Concurrent.now s)
            (<[i := (key, Concurrent.Returned
                      (memStore.GetDel (Concurrent.now s) (Concurrent.d s) key).1)]>
               (Concurrent.threads s))).
Proof.
  intros Hi Hl. destruct s as [d l t ts]. simpl in *. subst l.
  assert (i < length ts)%nat as Hlen by (by eapply lookup_lt_Some).
  assert (∀ x : string * Concurrent.pc, <[i:=x]> ts !! i = Some x) as Hget
    by (intros; by apply list_lookup_insert_eq).
  unfold memStore.GetDel.
  destruct (d !! key) as [v|] eqn:Hk; [destruct (time.After t (exp v)) eqn:Ht|].
  - exists (replicate 5 (Concurrent.Run i)). simpl replicate.
    erewrite exec_cons by (simpl; rewrite Hi; reflexivity).
    erewrite exec_cons by (simpl; rewrite Hget, Hk; reflexivity).
    unfold Concurrent.set_thread; simpl. rewrite list_insert_insert_eq.
    erewrite exec_cons by (simpl; rewrite Hget, Ht; reflexivity).
    unfold Concurrent.set_thread; simpl. rewrite list_insert_insert_eq.
    erewrite exec_cons by (simpl; rewrite Hget; reflexivity).
    simpl. rewrite list_insert_insert_eq.
    erewrite exec_cons by (simpl; rewrite Hget; reflexivity).
    simpl. by rewrite exec_nil, list_insert_insert_eq.
  - exists (replicate 5 (Concurrent.Run i)). simpl replicate.
    erewrite exec_cons by (simpl; rewrite Hi; reflexivity).
    erewrite exec_cons by (simpl; rewrite Hget, Hk; reflexivity).
    unfold Concurrent.set_thread; simpl. rewrite list_insert_insert_eq.
    erewrite exec_cons by (simpl; rewrite Hget, Ht; reflexivity).
    unfold Concurrent.set_thread; simpl. rewrite list_insert_insert_eq.
    erewrite exec_cons by (simpl; rewrite Hget; reflexivity).
    simpl. rewrite list_insert_insert_eq.
    erewrite exec_cons by (simpl; rewrite Hget; reflexivity).
    simpl. by rewrite exec_nil, list_insert_insert_eq.
  - exists (replicate 3 (Concurrent.Run i)). simpl replicate.
    erewrite exec_cons by (simpl; rewrite Hi; reflexivity).
    erewrite exec_cons by (simpl; rewrite Hget, Hk; reflexivity).
    unfold Concurrent.set_thread; simpl. rewrite list_insert_insert_eq.
    erewrite exec_cons by (simpl; rewrite Hget; reflexivity).
    simpl. by rewrite exec_nil, list_insert_insert_eq.
Qed.

(** C1, an expired record.  A record is written at instant 0 with a TTL
    of 5; the clock moves to 10 and two callers run [GetDel] on the key,
    one after the other under the mutex.  Both return [NotFound]: no
    caller observes the value. *)
Lemma GetDel_concurrent_after_expiry :
  Concurrent.threads <$>
    Concurrent.exec
      (Concurrent.Tick 10 :: replicate 5 (Concurrent.Run 0)
                          ++ replicate 3 (Concurrent.Run 1))
      (Concurrent.mkState (memStore.SetEx 0 ∅ "k" "v" 5).2 false 0
                          (Concurrent.callers 2 "k"))
  = Some [("k", Concurrent.Returned NotFound);
          ("k", Concurrent.Returned NotFound)].
Proof. vm_compute. reflexivity. Qed.

(** C1, as the code has it.  [n] callers run [GetDel] on a key written by
    [SetEx], under any schedule and any advance of the clock.  At every
    point of the run at most one caller has returned a value, that value
    is the one written, and every other answer is [NotFound].  When all
    [n >= 1] callers have returned and the clock has not passed the
    expiry instant, exactly one of them returned the value and the other
    [n - 1] returned [NotFound]. *)
Theorem GetDel_single_redemption
    (d0 : gmap string value) (w t0 : time.Time) (key v : string)
    (ttl : time.Duration) (n : nat)
    (acts : list Concurrent.action) (s : Concurrent.state) :
  Concurrent.exec acts
    (Concurrent.mkState (memStore.SetEx w d0 key v ttl).2 false t0
                        (Concurrent.callers n key)) = Some s ->
  (∀ i j x y,
     Concurrent.threads s !! i = Some (key, Concurrent.Returned (x, None)) ->
     Concurrent.threads s !! j = Some (key, Concurrent.Returned (y, None)) ->
     i = j ∧ x = v) ∧
  (∀ i r,
     Concurrent.threads s !! i = Some (key, Concurrent.Returned r) ->
     r = (v, None) ∨ r = NotFound) ∧
  ((0 < n)%nat ->
   Forall Concurrent.returned (Concurrent.threads s) ->
   Concurrent.now s <= time.Add w ttl ->
   ∃ i, (i < n)%nat ∧
        Concurrent.threads s !! i = Some (key, Concurrent.Returned (v, None)) ∧
        ∀ j, (j < n)%nat -> j ≠ i ->
             Concurrent.threads s !! j = Some (key, Concurrent.Returned NotFound)).
Proof.
  intros Hex.
  set (v0 := {| val := v; exp := time.Add w ttl |}).
  assert (Concurrent.Inv key v0 s) as HI.
  { eapply exec_Inv; [|exact Hex]. apply Inv_init.
    - apply SetEx_lookup.
    - unfold Concurrent.callers. by apply Forall_replicate. }
  assert (∀ i x, Concurrent.threads s !! i
                 = Some (key, Concurrent.Returned (x, None)) -> x = v) as Hval.
  { intros i x Hi. destruct (Inv_returned _ _ _ _ _ HI Hi) as [_ [Hr|Hr]];
      unfold Concurrent.win, NotFound in Hr; by simplify_eq. }
  split_and!.
  - intros i j x y Hi Hj.
    pose proof (Hval _ _ Hi). pose proof (Hval _ _ Hj). subst x y.
    split; [|done]. by eapply (Inv_at_most_one key v0 s).
  - intros i r Hi. by destruct (Inv_returned _ _ _ _ _ HI Hi) as [_ ?].
  - intros Hn Hret Hlive.
    destruct (exec_callers_lookup _ _ _ _ _ _ 0%nat Hex Hn) as [p0 Hp0].
    destruct (Inv_exactly_one key v0 s _ _ HI Hp0 Hret Hlive) as (i & Hi & Hothers).
    exists i. split_and!; [|done|].
    + apply lookup_lt_Some in Hi. apply exec_keys in Hex. simpl in Hex.
      assert (length (Concurrent.threads s) = n) as <-; [|done].
      rewrite <- (length_fmap fst), Hex, length_fmap.
      apply length_replicate.
    + intros j Hj Hne.
      destruct (exec_callers_lookup _ _ _ _ _ _ j Hex Hj) as [p Hp].
      by rewrite Hp, (Hothers _ _ Hne Hp).
Qed.

Lemma GetDel_single_redemption_witness :
  ∃ s,
    Concurrent.exec
      (Concurrent.Run 0 :: Concurrent.Run 0 :: Concurrent.Tick 3 ::
       replicate 3 (Concurrent.Run 0) ++ replicate 3 (Concurrent.Run 1))
      (Concurrent.mkState (memStore.SetEx 0 ∅ "k" "v" 5).2 false 1
                          (Concurrent.callers 2 "k")) = Some s ∧
    ∃ i, (i < 2)%nat ∧
         Concurrent.threads s !! i = Some ("k", Concurrent.Returned ("v", None)) ∧
         ∀ j, (j < 2)%nat -> j ≠ i ->
              Concurrent.threads s !! j = Some ("k", Concurrent.Returned NotFound).
Proof.
  exists (Concurrent.mkState ∅ false 4
            [("k", Concurrent.Returned ("v", None));
             ("k", Concurrent.Returned NotFound)]).
  split; [vm_compute; reflexivity|].
  eapply (GetDel_single_redemption ∅ 0 1 "k" "v" 5 2
            (Concurrent.Run 0 :: Concurrent.Run 0 :: Concurrent.Tick 3 ::
             replicate 3 (Concurrent.Run 0) ++ replicate 3 (Concurrent.Run 1))).
  - vm_compute. reflexivity.
  - lia.
  - repeat constructor; eexists; reflexivity.
  - vm_compute. discriminate.
Defined.

(** ** The token generator *)

Lemma hex_EncodeToString_length bs :
  String.length (hex_EncodeToString bs) = (2 * length bs)%nat.
Proof. induction bs as [|v bs IH]; simpl; [done|]. rewrite IH. lia. Qed.

Lemma hex_byte_lower (v : byte) :
  is_hex_lower (hex_digit (N.shiftr (Byte.to_N v) 4)) = true ∧
  is_hex_lower (hex_digit (N.land (Byte.to_N v) 15)) = true.
Proof. destruct v; split; reflexivity. Qed.

Lemma hex_EncodeToString_lower bs :
  Forall (fun c => is_hex_lower c = true)
         (list_ascii_of_string (hex_EncodeToString bs)).
Proof.
  induction bs as [|v bs IH]; simpl; [constructor|].
  destruct (hex_byte_lower v). by repeat constructor.
Qed.

Lemma unhex_byte (v : byte) :
  Byte.of_N (16 * hex_value (hex_digit (N.shiftr (Byte.to_N v) 4))
             + hex_value (hex_digit (N.land (Byte.to_N v) 15))) = Some v.
Proof. destruct v; reflexivity. Qed.

Lemma unhex_EncodeToString bs : unhex (hex_EncodeToString bs) = bs.
Proof.
  induction bs as [|v bs IH]; [done|].
  cbn [hex_EncodeToString unhex]. by rewrite unhex_byte, IH.
Qed.

Lemma copy_into_length b src : length (copy_into b src) = length b.
Proof.
  unfold copy_into. rewrite length_app, length_take, length_drop. lia.
Qed.

Lemma copy_into_full b src : length src = length b -> copy_into b src = src.
Proof.
  intros Hlen. unfold copy_into.
  rewrite <- Hlen, firstn_all, drop_ge by lia. apply app_nil_r.
Qed.

(** C9.  [token()] reads the random source once, for 32 bytes, and calls
    nothing else.  It returns no error exactly when that read returns
    none.  When the read fails the token is the empty string, next to a
    non-nil error.  When it succeeds the token is 64 characters long, all
    of them lowercase hexadecimal digits, and is the hexadecimal
    encoding of 32 bytes, which are the bytes the source delivered. *)
Theorem token_hex_or_error {St : Type} `{Store St}
    (now : time.Time) (w : world St) :
  let answer := w_entropy w (w_reads w) in
  let r := run now token w in
  (∃ k, token = RandRead 32 k) ∧
  w_store r.2 = w_store w ∧ w_calls r.2 = w_calls w ∧
  w_reads r.2 = S (w_reads w) ∧
  (r.1.2 = None ↔ answer.2 = None) ∧
  (answer.2 ≠ None -> r.1.1 = "") ∧
  (answer.2 = None ->
     String.length r.1.1 = 64%nat ∧
     Forall (fun c => is_hex_lower c = true) (list_ascii_of_string r.1.1) ∧
     length (unhex r.1.1) = 32%nat ∧
     r.1.1 = hex_EncodeToString (unhex r.1.1) ∧
     (length answer.1 = 32%nat -> unhex r.1.1 = answer.1)).
Proof.
  intros answer r. subst r. unfold token. cbn [run]. fold answer.
  destruct (answer.2) as [err|] eqn:Herr; cbn [run fst snd w_store w_calls w_reads].
  - split_and!; try done. by eexists.
  - split_and!; try done; [by eexists|]. intros _.
    rewrite unhex_EncodeToString.
    split_and!; [| | |done|].
    + rewrite hex_EncodeToString_length, copy_into_length. reflexivity.
    + apply hex_EncodeToString_lower.
    + apply copy_into_length.
    + intros Hlen. by apply copy_into_full.
Qed.

Lemma token_hex_or_error_witness :
  let w := mkWorld (∅ : gmap string value) (constant_entropy Byte.xab) 0 [] in
  let w' := mkWorld (∅ : gmap string value) no_entropy 0 [] in
  (w_entropy w (w_reads w)).2 = None ∧
  unhex (run 0 token w).1.1 = replicate 32 Byte.xab ∧
  (w_entropy w' (w_reads w')).2 ≠ None ∧
  (run 0 token w').1.1 = "".
Proof.
  intros w w'.
  destruct (token_hex_or_error 0 w) as (_ & _ & _ & _ & _ & _ & Hok).
  destruct (token_hex_or_error 0 w') as (_ & _ & _ & _ & _ & Hfail & _).
  split_and!.
  - reflexivity.
  - apply (Hok eq_refl). reflexivity.
  - discriminate.
  - apply Hfail. discriminate.
Defined.

(** ** Running handlers *)

Section run_facts.
Context {St : Type} `{Store St}.

Lemma calls_all_bind {A B : Type} (P : store_call -> Prop)
    (p : prog A) (f : A -> prog B) :
  calls_all P p -> (∀ a, calls_all P (f a)) -> calls_all P (bind p f).
Proof.
  intros Hp Hf. induction p as [a|n k IH|key k IH|key v ttl k IH]; simpl in *.
  - done.
  - intros r. by apply IH.
  - destruct Hp. split; [done|]. intros r. by apply IH.
  - destruct Hp. split; [done|]. intros r. by apply IH.
Qed.

Lemma calls_all_token (P : store_call -> Prop) : calls_all P token.
Proof. unfold token. simpl. intros r. by destruct (r.2). Qed.

Lemma run_bind {A B : Type} now (p : prog A) (f : A -> prog B) (w : world St) :
  run now (bind p f) w = run now (f (run now p w).1) (run now p w).2.
Proof.
  revert w. induction p as [a|n k IH|key k IH|key v ttl k IH]; intros w; simpl.
  - done.
  - apply IH.
  - apply IH.
  - apply IH.
Qed.

(** The calls a run appends to the log are calls of the program. *)
Lemma run_calls_all {A : Type} (P : store_call -> Prop) now (p : prog A)
    (w : world St) :
  calls_all P p ->
  ∃ new, w_calls (run now p w).2 = (w_calls w ++ new)%list ∧ Forall P new.
Proof.
  revert w. induction p as [a|n k IH|key k IH|key v ttl k IH];
    intros w Hp; simpl in *.
  - exists []. by rewrite app_nil_r.
  - edestruct (IH (w_entropy w (w_reads w))
                   (mkWorld (w_store w) (w_entropy w) (S (w_reads w)) (w_calls w)))
      as (new & Hnew & HP); [apply Hp|].
    by exists new.
  - destruct Hp as [Hc Hk].
    edestruct IH as (new & Hnew & HP); [apply Hk|].
    rewrite Hnew. simpl. exists (CallGetDel key :: new).
    split; [by rewrite <- app_assoc|by constructor].
  - destruct Hp as [Hc Hk].
    edestruct IH as (new & Hnew & HP); [apply Hk|].
    rewrite Hnew. simpl. exists (CallSetEx key v ttl :: new).
    split; [by rewrite <- app_assoc|by constructor].
Qed.

Lemma run_token now (w : world St) :
  run now token w
  = (token_of (w_entropy w (w_reads w)),
     mkWorld (w_store w) (w_entropy w) (S (w_reads w)) (w_calls w)).
Proof.
  unfold token, token_of. cbn [run]. by destruct ((w_entropy w (w_reads w)).2).
Qed.

(** A program that can make no store call leaves store and log alone. *)
Lemma run_no_calls {A : Type} now (p : prog A) (w : world St) :
  calls_all (fun _ => False) p ->
  w_store (run now p w).2 = w_store w ∧ w_calls (run now p w).2 = w_calls w.
Proof.
  revert w. induction p as [a|n k IH|key k IH|key v ttl k IH];
    intros w Hp; simpl in *.
  - done.
  - apply (IH (w_entropy w (w_reads w))
               (mkWorld (w_store w) (w_entropy w) (S (w_reads w)) (w_calls w))).
    apply Hp.
  - by destruct Hp.
  - by destruct Hp.
Qed.

End run_facts.

(** Against [memStore], a program leaves alone every key it never names. *)
Lemma run_memStore_other {A : Type} (k : string) now (p : prog A)
    (w : world (gmap string value)) :
  calls_all (fun c => call_key c ≠ k) p ->
  w_store (run now p w).2 !! k = w_store w !! k.
Proof.
  revert w. induction p as [a|n r IH|key r IH|key v ttl r IH];
    intros w Hp; simpl in *.
  - done.
  - by rewrite IH.
  - destruct Hp as [Hc Hk]. rewrite IH by done. simpl.
    by apply GetDel_other.
  - destruct Hp as [Hc Hk]. rewrite IH by done. simpl.
    by apply SetEx_other.
Qed.

(** ** The two key namespaces *)

Lemma prefix_i_ne_s (a b : string) : "i:" +:+ a ≠ "s:" +:+ b.
Proof. discriminate. Qed.

Lemma StartHandler_calls (J : json_codec) (baseURL body : string) :
  calls_all (fun c => ∃ tok v, c = CallSetEx ("i:" +:+ tok) v (10 * time.Minute))
            (StartHandler J baseURL body).
Proof.
  unfold StartHandler. destruct (Decode_startRequest J body); [|done].
  apply calls_all_bind; [apply calls_all_token|]. intros r1.
  destruct (r1.2); [done|].
  apply calls_all_bind; [apply calls_all_token|]. intros r2.
  destruct (r2.2); [done|].
  destruct (Marshal_startRequest J _); [|done]. simpl. split; [by eauto|].
  intros [e|]; [done|]. by destruct (Marshal_startResponse J _ _).
Qed.

Lemma RedirectHandler_calls (J : json_codec) (key : string) :
  calls_all (fun c => c = CallGetDel ("i:" +:+ key)) (RedirectHandler J key).
Proof.
  unfold RedirectHandler. simpl. split; [done|]. intros r.
  destruct (r.2) as [e|].
  - by case_bool_decide.
  - destruct (Decode_startRequest J _); [|done].
    by destruct (Marshal_manifest J _).
Qed.

Lemma CallbackHandler_calls (state code : string) :
  calls_all (fun c => c = CallSetEx ("s:" +:+ state) code (5 * time.Minute))
            (CallbackHandler state code).
Proof.
  unfold CallbackHandler. destruct (_ || _); [done|]. simpl.
  split; [done|]. by intros [e|].
Qed.

Lemma CodeHandler_calls (key : string) :
  calls_all (fun c => c = CallGetDel ("s:" +:+ key)) (CodeHandler key).
Proof.
  unfold CodeHandler. simpl. split; [done|]. intros r.
  destruct (r.2) as [e|]; [|done]. by case_bool_decide.
Qed.

Lemma calls_all_impl {A : Type} (P Q : store_call -> Prop) (p : prog A) :
  (∀ c, P c -> Q c) -> calls_all P p -> calls_all Q p.
Proof.
  intros HPQ. induction p as [a|n k IH|key k IH|key v ttl k IH]; simpl.
  - done.
  - intros Hp r. by apply IH.
  - intros [Hc Hk]. split; [by apply HPQ|]. intros r. by apply IH.
  - intros [Hc Hk]. split; [by apply HPQ|]. intros r. by apply IH.
Qed.

(** C10.  No key with the prefix of initiation records equals a key with
    the prefix of code records, whatever the tokens.  Start only ever
    writes, and Redirect only ever consumes, a key of the first kind;
    Callback only ever writes, and Code only ever consumes, a key of the
    second kind.  So against the in-process store a Redirect leaves every
    code record in place and a Code poll leaves every initiation record
    in place, also for textually equal tokens. *)
Theorem token_namespaces_disjoint :
  (∀ a b : string, "i:" +:+ a ≠ "s:" +:+ b) ∧
  (∀ J baseURL body,
     calls_all (fun c => ∃ tok v, c = CallSetEx ("i:" +:+ tok) v (10 * time.Minute))
               (StartHandler J baseURL body)) ∧
  (∀ J key,
     calls_all (fun c => c = CallGetDel ("i:" +:+ key)) (RedirectHandler J key)) ∧
  (∀ state code,
     calls_all (fun c => c = CallSetEx ("s:" +:+ state) code (5 * time.Minute))
               (CallbackHandler state code)) ∧
  (∀ key,
     calls_all (fun c => c = CallGetDel ("s:" +:+ key)) (CodeHandler key)) ∧
  (∀ J key now (w : world (gmap string value)) tok,
     w_store (run now (RedirectHandler J key) w).2 !! ("s:" +:+ tok)
     = w_store w !! ("s:" +:+ tok)) ∧
  (∀ key now (w : world (gmap string value)) tok,
     w_store (run now (CodeHandler key) w).2 !! ("i:" +:+ tok)
     = w_store w !! ("i:" +:+ tok)).
Proof.
  split_and!.
  - apply prefix_i_ne_s.
  - apply StartHandler_calls.
  - apply RedirectHandler_calls.
  - apply CallbackHandler_calls.
  - apply CodeHandler_calls.
  - intros J key now w tok. apply run_memStore_other.
    eapply calls_all_impl; [|apply RedirectHandler_calls].
    intros c ->. simpl. apply prefix_i_ne_s.
  - intros key now w tok. apply run_memStore_other.
    eapply calls_all_impl; [|apply CodeHandler_calls].
    intros c ->. simpl. intros Heq. by apply (prefix_i_ne_s tok key).
Qed.

(** ** Requests rejected before the store *)

Lemma CallbackHandler_missing (state code : string) :
  state = "" ∨ code = "" ->
  CallbackHandler state code
  = Ret (fail_text StatusBadRequest "Error: missing state or code parameters.").
Proof.
  intros Hmiss. unfold CallbackHandler.
  destruct Hmiss as [->| ->]; [done|]. by rewrite orb_true_r.
Qed.

(** C6.  A Start request whose body does not decode, and a Callback
    request whose [state] or [code] is empty, are answered with status
    400 and the run leaves the whole world as it was: no store call is
    made, nothing is written, not even the random source is read.  When
    either of the two token generations of a Start request fails, the
    run makes no store call and the store is unchanged. *)
Theorem rejected_before_store {St : Type} `{Store St}
    (J : json_codec) (baseURL body state code : string)
    (now : time.Time) (w : world St) :
  (Decode_startRequest J body = None ->
   ∃ resp, run now (StartHandler J baseURL body) w = (resp, w) ∧
           status resp = 400) ∧
  (state = "" ∨ code = "" ->
   ∃ resp, run now (CallbackHandler state code) w = (resp, w) ∧
           status resp = 400) ∧
  ((w_entropy w (w_reads w)).2 ≠ None ∨
   (w_entropy w (S (w_reads w))).2 ≠ None ->
   w_store (run now (StartHandler J baseURL body) w).2 = w_store w ∧
   w_calls (run now (StartHandler J baseURL body) w).2 = w_calls w).
Proof.
  split_and!.
  - intros Hdec. unfold StartHandler. rewrite Hdec. by eexists.
  - intros Hmiss. rewrite CallbackHandler_missing by done. by eexists.
  - intros Hfail. unfold StartHandler.
    destruct (Decode_startRequest J body) as [request|]; [|done].
    rewrite !run_bind, !run_token. cbn [fst snd]. unfold token_of.
    destruct ((w_entropy w (w_reads w)).2) as [e1|] eqn:H1; [done|].
    cbn [fst snd]. rewrite !run_bind, !run_token. cbn [fst snd w_entropy w_reads].
    unfold token_of.
    destruct ((w_entropy w (S (w_reads w))).2) as [e2|] eqn:H2; [done|].
    by destruct Hfail.
Qed.

Lemma rejected_before_store_witness :
  let w := demo_world in
  let w' := mkWorld memStore.New no_entropy 0 [] in
  (∃ resp, run 0 (StartHandler demo_codec demo_base "not json") w = (resp, w) ∧
           status resp = 400) ∧
  (∃ resp, run 0 (CallbackHandler "" "XYZ") w = (resp, w) ∧ status resp = 400) ∧
  (w_store (run 0 (StartHandler demo_codec demo_base demo_body) w').2 = w_store w' ∧
   w_calls (run 0 (StartHandler demo_codec demo_base demo_body) w').2 = w_calls w').
Proof.
  intros w w'.
  destruct (rejected_before_store demo_codec demo_base "not json" "" "XYZ" 0 w)
    as (Hstart & Hcallback & _).
  destruct (rejected_before_store demo_codec demo_base demo_body "" "" 0 w')
    as (_ & _ & Htoken).
  split_and!.
  - apply Hstart. reflexivity.
  - apply Hcallback. by left.
  - apply Htoken. left. discriminate.
  - apply Htoken. left. discriminate.
Defined.

(** ** Store failures *)

Section store_failure.
Context {St : Type} `{Store St}.
Variables (now : time.Time) (w : world St).

(** Redirect answers a store failure other than [redis.Nil] with 500. *)
Lemma RedirectHandler_store_failure (J : json_codec) (key : string) (err : error) :
  (Store_GetDel now (w_store w) ("i:" +:+ key)).1.2 = Some err ->
  err ≠ redis_Nil ->
  status (run now (RedirectHandler J key) w).1 = StatusInternalServerError.
Proof.
  intros Herr Hne. unfold RedirectHandler. cbn [run]. rewrite Herr.
  by rewrite bool_decide_eq_false_2.
Qed.

(** Code answers a store failure other than [redis.Nil] with 500. *)
Lemma CodeHandler_store_failure (key : string) (err : error) :
  (Store_GetDel now (w_store w) ("s:" +:+ key)).1.2 = Some err ->
  err ≠ redis_Nil ->
  status (run now (CodeHandler key) w).1 = StatusInternalServerError.
Proof.
  intros Herr Hne. unfold CodeHandler. cbn [run]. rewrite Herr.
  by rewrite bool_decide_eq_false_2.
Qed.

(** Start answers a failure of its [SetEx] with 500. *)
Lemma StartHandler_store_failure (J : json_codec) (baseURL body : string)
    (request : startRequest) (payload : string) (err : error) :
  let I := (token_of (w_entropy w (w_reads w))).1 in
  let S' := (token_of (w_entropy w (S (w_reads w)))).1 in
  Decode_startRequest J body = Some request ->
  (w_entropy w (w_reads w)).2 = None ->
  (w_entropy w (S (w_reads w))).2 = None ->
  Marshal_startRequest J
    (set_Token_RedirectURL S' (baseURL +:+ "/callback") request) = Some payload ->
  (Store_SetEx now (w_store w) ("i:" +:+ I) payload (10 * time.Minute)).1 = Some err ->
  status (run now (StartHandler J baseURL body) w).1 = StatusInternalServerError.
Proof.
  intros I S' Hdec H1 H2 Hm Herr. unfold StartHandler. rewrite Hdec.
  rewrite run_bind, run_token. cbn [fst snd].
  assert ((token_of (w_entropy w (w_reads w))).2 = None) as ->
    by (unfold token_of; by rewrite H1).
  rewrite run_bind, run_token. cbn [fst snd w_entropy w_reads].
  assert ((token_of (w_entropy w (S (w_reads w)))).2 = None) as ->
    by (unfold token_of; by rewrite H2).
  fold S'. rewrite Hm. cbn [run w_store]. fold I. by rewrite Herr.
Qed.

(** Callback answers a failure of its [SetEx] with 400. *)
Lemma CallbackHandler_store_failure (state code : string) (err : error) :
  state ≠ "" -> code ≠ "" ->
  (Store_SetEx now (w_store w) ("s:" +:+ state) code (5 * time.Minute)).1 = Some err ->
  status (run now (CallbackHandler state code) w).1 = StatusBadRequest.
Proof.
  intros Hs Hc Herr. unfold CallbackHandler.
  rewrite !bool_decide_eq_false_2 by done. cbn [orb run]. by rewrite Herr.
Qed.

End store_failure.

(** C7, at a store that cannot be reached.  With every store call failing
    with a transport error, Start, Redirect and Code answer with status
    500, and Callback (state S, code XYZ) answers with status 400, not
    500. *)
Theorem Callback_store_failure_is_400 :
  let w := mkWorld tt demo_entropy 0 [] in
  written (run (H := redisStore unreachable) 0
              (StartHandler demo_codec demo_base demo_body) w).1
  = error_json "failed to store payload" ∧
  status (run (H := redisStore unreachable) 0
              (StartHandler demo_codec demo_base demo_body) w).1 = 500 ∧
  status (run (H := redisStore unreachable) 0
              (RedirectHandler demo_codec demo_I) w).1 = 500 ∧
  status (run (H := redisStore unreachable) 0 (CodeHandler demo_S) w).1 = 500 ∧
  status (run (H := redisStore unreachable) 0 (CallbackHandler "S" "XYZ") w).1 = 400 ∧
  status (run (H := redisStore unreachable) 0 (CallbackHandler "S" "XYZ") w).1 ≠ 500.
Proof. intros w. split_and!; try (vm_compute; reflexivity). vm_compute. discriminate. Qed.

(** ** Redirect: the rendered form *)

Lemma GetDel_live (d : gmap string value) (key : string) (v : value) now :
  d !! key = Some v -> now <= exp v ->
  memStore.GetDel now d key = ((val v, None), delete key d).
Proof.
  intros Hk Hlive. unfold memStore.GetDel, time.After. rewrite Hk.
  by rewrite bool_decide_eq_false_2 by lia.
Qed.

Lemma GetDel_expired (d : gmap string value) (key : string) (v : value) now :
  d !! key = Some v -> exp v < now ->
  memStore.GetDel now d key = (NotFound, delete key d).
Proof.
  intros Hk Hlive. unfold memStore.GetDel, time.After. rewrite Hk.
  by rewrite bool_decide_eq_true_2 by lia.
Qed.

Lemma RedirectHandler_renders (J : json_codec) (key : string) now
    (w : world (gmap string value)) (v : value) (m : startRequest) (mj : string) :
  w_store w !! ("i:" +:+ key) = Some v ->
  now <= exp v ->
  Decode_startRequest J (val v) = Some m ->
  Marshal_manifest J (Manifest m) = Some mj ->
  run now (RedirectHandler J key) w
  = ([tmpl_Execute {| tmpl_Manifest := mj; tmpl_Action := actionURL m |}],
     mkWorld (delete ("i:" +:+ key) (w_store w)) (w_entropy w) (w_reads w)
             (w_calls w ++ [CallGetDel ("i:" +:+ key)])).
Proof.
  intros Hk Hlive Hdec Hm. unfold RedirectHandler. cbn [run Store_GetDel memStore_Store].
  rewrite (GetDel_live _ _ _ _ Hk Hlive). cbn [fst snd]. by rewrite Hdec, Hm.
Qed.

(** C5.  When Redirect consumes an initiation record that is still live,
    the action URL of the rendered form is
    https://HOST/organizations/SLUG/settings/apps/new?state=TOKEN when the
    stored target type equals org, and
    https://HOST/settings/apps/new?state=TOKEN for every other target
    type, whatever its value; the record is gone afterwards. *)
Theorem action_url_by_target_type (J : json_codec) (key : string)
    (now : time.Time) (w : world (gmap string value))
    (v : value) (m : startRequest) (mj : string) :
  w_store w !! ("i:" +:+ key) = Some v ->
  now <= exp v ->
  Decode_startRequest J (val v) = Some m ->
  Marshal_manifest J (Manifest m) = Some mj ->
  ∃ action,
    rendered (run now (RedirectHandler J key) w).1
    = Some {| tmpl_Manifest := mj; tmpl_Action := action |} ∧
    w_store (run now (RedirectHandler J key) w).2 !! ("i:" +:+ key) = None ∧
    (TargetType m = "org" ->
     action = "https://" +:+ Host m +:+ "/organizations/" +:+ TargetSlug m
              +:+ "/settings/apps/new?state=" +:+ Token m) ∧
    (TargetType m ≠ "org" ->
     action = "https://" +:+ Host m +:+ "/settings/apps/new?state=" +:+ Token m).
Proof.
  intros Hk Hlive Hdec Hm. exists (actionURL m).
  rewrite (RedirectHandler_renders J key now w v m mj) by done.
  cbn [fst snd rendered w_store]. split_and!.
  - done.
  - apply lookup_delete_eq.
  - intros Horg. unfold actionURL. by rewrite bool_decide_eq_true_2.
  - intros Hother. unfold actionURL. by rewrite bool_decide_eq_false_2.
Qed.

Lemma action_url_by_target_type_witness :
  let org_text := "{'manifest':{'name':'demo'},'target_type':'org','target_slug':'acme'}" in
  let team_text := "{'manifest':{'name':'demo'},'target_type':'team','target_slug':'acme'}" in
  let w := mkWorld (<["i:k1" := mkValue 100 org_text]>
                      (<["i:k2" := mkValue 100 team_text]> ∅))
                   demo_entropy 0 [] in
  (∃ action,
     rendered (run 7 (RedirectHandler demo_codec "k1") w).1
     = Some {| tmpl_Manifest := "{'name':'demo','redirect_url':'https://caller.example/hook'}";
               tmpl_Action := action |} ∧
     action = "https://github.example/organizations/acme/settings/apps/new?state=" +:+ demo_S) ∧
  (∃ action,
     rendered (run 7 (RedirectHandler demo_codec "k2") w).1
     = Some {| tmpl_Manifest := "{'name':'demo','redirect_url':'https://caller.example/hook'}";
               tmpl_Action := action |} ∧
     action = "https://github.example/settings/apps/new?state=" +:+ demo_S).
Proof.
  intros org_text team_text w. split.
  - destruct (action_url_by_target_type demo_codec "k1" 7 w
                (mkValue 100 org_text) org_record
                "{'name':'demo','redirect_url':'https://caller.example/hook'}")
      as (action & Hr & _ & Horg & _); [reflexivity|simpl; lia|reflexivity..|].
    exists action. split; [exact Hr|]. by apply Horg.
  - destruct (action_url_by_target_type demo_codec "k2" 7 w
                (mkValue 100 team_text) team_record
                "{'name':'demo','redirect_url':'https://caller.example/hook'}")
      as (action & Hr & _ & _ & Hother); [reflexivity|simpl; lia|reflexivity..|].
    exists action. split; [exact Hr|]. apply Hother. discriminate.
Defined.

(** ** Start, then Redirect: what becomes of the manifest *)

Lemma StartHandler_stores (J : json_codec) (baseURL body : string) now
    (w : world (gmap string value)) (request : startRequest) (payload : string) :
  let I := (token_of (w_entropy w (w_reads w))).1 in
  let S' := (token_of (w_entropy w (S (w_reads w)))).1 in
  Decode_startRequest J body = Some request ->
  (w_entropy w (w_reads w)).2 = None ->
  (w_entropy w (S (w_reads w))).2 = None ->
  Marshal_startRequest J
    (set_Token_RedirectURL S' (baseURL +:+ "/callback") request) = Some payload ->
  w_store (run now (StartHandler J baseURL body) w).2
  = <["i:" +:+ I := mkValue (time.Add now (10 * time.Minute)) payload]> (w_store w).
Proof.
  intros I S' Hdec H1 H2 Hm. unfold StartHandler. rewrite Hdec.
  rewrite run_bind, run_token. cbn [fst snd].
  assert ((token_of (w_entropy w (w_reads w))).2 = None) as ->
    by (unfold token_of; by rewrite H1).
  rewrite run_bind, run_token. cbn [fst snd w_entropy w_reads].
  assert ((token_of (w_entropy w (S (w_reads w)))).2 = None) as ->
    by (unfold token_of; by rewrite H2).
  fold S'. rewrite Hm. cbn [run w_store Store_SetEx memStore_Store].
  fold I. unfold memStore.SetEx. cbn [fst snd].
  by destruct (Marshal_startResponse J _ _).
Qed.

(** C4, a manifest with a redirect URL of its own.  The request carries a
    manifest whose [redirect_url] is https://caller.example/hook.  The
    record Start stores, and the manifest Redirect renders, carry
    https://gamf.example/callback instead: the stored manifest differs
    from the caller's, and the rendered text is not the text of the
    caller's manifest.  Nor is the manifest kept as the caller wrote it in
    other respects: a second request, whose manifest has one more member
    for which the handler's struct has no field, decodes to the same
    struct, so Start answers and stores exactly what it does for the
    first. *)
Lemma manifest_redirect_url_replaced :
  let w1 := (run 0 (StartHandler demo_codec demo_base demo_body) demo_world).2 in
  Decode_startRequest demo_codec demo_body = Some demo_request ∧
  RedirectURL (Manifest demo_request) = "https://caller.example/hook" ∧
  (∃ v stored,
     w_store w1 !! ("i:" +:+ demo_I) = Some v ∧
     Decode_startRequest demo_codec (val v) = Some stored ∧
     Manifest stored ≠ Manifest demo_request ∧
     RedirectURL (Manifest stored) = "https://gamf.example/callback") ∧
  (∃ data,
     rendered (run 1 (RedirectHandler demo_codec demo_I) w1).1 = Some data ∧
     Some (tmpl_Manifest data)
     ≠ Marshal_manifest demo_codec (Manifest demo_request) ∧
     Some (tmpl_Manifest data)
     = Marshal_manifest demo_codec
         (set_RedirectURL "https://gamf.example/callback" (Manifest demo_request))) ∧
  (demo_body_extra ≠ demo_body ∧
   run 0 (StartHandler demo_codec demo_base demo_body_extra) demo_world
   = run 0 (StartHandler demo_codec demo_base demo_body) demo_world).
Proof.
  intros w1. split_and!.
  - reflexivity.
  - reflexivity.
  - eexists _, demo_back. split_and!.
    + vm_compute. reflexivity.
    + reflexivity.
    + discriminate.
    + reflexivity.
  - eexists. split_and!.
    + vm_compute. reflexivity.
    + discriminate.
    + reflexivity.
  - discriminate.
  - reflexivity.
Qed.

(** C4, as the code has it.  Take any request that Start decodes, in a
    run where both tokens are generated.  Write [kept] for the decoded
    manifest with [redirect_url] replaced by BASE/callback and its eight
    other fields as decoded, and [record] for the decoded request with
    that manifest and the state token.  Start stores the encoding of
    [record] under the initiation token with a TTL of ten minutes.  A
    Redirect on that token within the ten minutes decodes the stored text
    again and renders the encoding of the manifest it finds.  Decoding
    need not give back [record] itself ([encoding/json] writes an absent
    [hook_attributes] as null and reads it back as the four bytes null),
    so nothing of the kind is assumed: when the stored text decodes, to
    any record [back], and the manifest of [back] has the same encoding
    [mj] as [kept], the form is rendered with [mj] as its manifest. *)
Theorem manifest_stored_and_rendered (J : json_codec) (baseURL body : string)
    (now now' : time.Time) (w : world (gmap string value))
    (request back : startRequest) (payload mj : string) :
  let I := (token_of (w_entropy w (w_reads w))).1 in
  let S' := (token_of (w_entropy w (S (w_reads w)))).1 in
  let m := Manifest request in
  let kept :=
    mkManifest (Name m) (URL m) (HookAttributes m) (baseURL +:+ "/callback")
               (CallbackURLs m) (Description m) (Public m) (DefaultEvents m)
               (DefaultPermissions m) in
  let record :=
    mkStartRequest kept (TargetType request) (TargetSlug request)
                   (Host request) S' in
  let w1 := (run now (StartHandler J baseURL body) w).2 in
  Decode_startRequest J body = Some request ->
  (w_entropy w (w_reads w)).2 = None ->
  (w_entropy w (S (w_reads w))).2 = None ->
  Marshal_startRequest J record = Some payload ->
  Decode_startRequest J payload = Some back ->
  Marshal_manifest J kept = Some mj ->
  Marshal_manifest J (Manifest back) = Some mj ->
  now' <= time.Add now (10 * time.Minute) ->
  w_store w1 !! ("i:" +:+ I)
  = Some (mkValue (time.Add now (10 * time.Minute)) payload) ∧
  rendered (run now' (RedirectHandler J I) w1).1
  = Some {| tmpl_Manifest := mj; tmpl_Action := actionURL back |} ∧
  w_store (run now' (RedirectHandler J I) w1).2 !! ("i:" +:+ I) = None.
Proof.
  intros I S' m kept record w1 Hdec H1 H2 Hm Hback Hkept Hmj Hlive.
  assert (w_store w1 !! ("i:" +:+ I)
          = Some (mkValue (time.Add now (10 * time.Minute)) payload)) as Hk.
  { subst w1. rewrite (StartHandler_stores J baseURL body now w request payload)
      by done. apply lookup_insert_eq. }
  rewrite (RedirectHandler_renders J I now' w1 _ back mj) by done.
  cbn [fst snd rendered w_store]. split_and!; [done|done|].
  apply lookup_delete_eq.
Qed.

Lemma manifest_stored_and_rendered_witness :
  let w1 := (run 0 (StartHandler demo_codec demo_base demo_body) demo_world).2 in
  Decode_startRequest demo_codec
    "{'manifest':{'name':'demo','redirect_url':'https://gamf.example/callback'},'target_type':'user','token':'02..02'}"
  ≠ Some demo_stored ∧
  rendered (run (10 * time.Minute) (RedirectHandler demo_codec demo_I) w1).1
  = Some {| tmpl_Manifest := "{'name':'demo','redirect_url':'https://gamf.example/callback'}";
            tmpl_Action := "https://github.example/settings/apps/new?state=" +:+ demo_S |}.
Proof.
  intros w1. split; [discriminate|].
  destruct (manifest_stored_and_rendered demo_codec demo_base demo_body
              0 (10 * time.Minute) demo_world demo_request demo_back
              "{'manifest':{'name':'demo','redirect_url':'https://gamf.example/callback'},'target_type':'user','token':'02..02'}"
              "{'name':'demo','redirect_url':'https://gamf.example/callback'}")
    as (_ & Hr & _); [reflexivity..|vm_compute; discriminate|].
  exact Hr.
Defined.

(** ** Callback, then Code *)

Lemma append_empty_r (s : string) : s +:+ "" = s.
Proof.
  induction s as [|c s IH]; [done|].
  change (String c s +:+ "") with (String c (s +:+ "")). by f_equal.
Qed.

Section code_poll.
Variables (now : time.Time) (w : world (gmap string value)) (key : string).

(** A live code record is answered with status 200 and the formatted
    body, and is consumed. *)
Lemma CodeHandler_found (v : value) :
  w_store w !! ("s:" +:+ key) = Some v -> now <= exp v ->
  status (run now (CodeHandler key) w).1 = StatusOK ∧
  written (run now (CodeHandler key) w).1 = code_json (val v) ∧
  w_store (run now (CodeHandler key) w).2 = delete ("s:" +:+ key) (w_store w).
Proof.
  intros Hk Hlive. unfold CodeHandler. cbn [run Store_GetDel memStore_Store].
  rewrite (GetDel_live _ _ _ _ Hk Hlive). cbn [run fst snd status written w_store].
  by rewrite append_empty_r.
Qed.

(** An unknown or consumed key is answered with status 404 and a JSON
    error object. *)
Lemma CodeHandler_unknown :
  w_store w !! ("s:" +:+ key) = None ->
  status (run now (CodeHandler key) w).1 = StatusNotFound ∧
  written (run now (CodeHandler key) w).1
  = error_json "failed to find code for the given key".
Proof.
  intros Hk. unfold CodeHandler. cbn [run Store_GetDel memStore_Store].
  by rewrite (GetDel_absent _ _ _ Hk).
Qed.

(** An expired record is answered like an unknown key, and is deleted. *)
Lemma CodeHandler_expired (v : value) :
  w_store w !! ("s:" +:+ key) = Some v -> exp v < now ->
  status (run now (CodeHandler key) w).1 = StatusNotFound ∧
  written (run now (CodeHandler key) w).1
  = error_json "failed to find code for the given key" ∧
  w_store (run now (CodeHandler key) w).2 = delete ("s:" +:+ key) (w_store w).
Proof.
  intros Hk Hexp. unfold CodeHandler. cbn [run Store_GetDel memStore_Store].
  by rewrite (GetDel_expired _ _ _ _ Hk Hexp).
Qed.

End code_poll.

(** Callback stores the code under the state token for five minutes. *)
Lemma CallbackHandler_stores (state code : string) now
    (w : world (gmap string value)) :
  state ≠ "" -> code ≠ "" ->
  status (run now (CallbackHandler state code) w).1 = StatusFound ∧
  w_store (run now (CallbackHandler state code) w).2
  = <["s:" +:+ state := mkValue (time.Add now (5 * time.Minute)) code]> (w_store w).
Proof.
  intros Hs Hc. unfold CallbackHandler.
  by rewrite !bool_decide_eq_false_2 by done.
Qed.

(** A poll within five minutes of the callback gets status 200 and the
    formatted code; the next poll gets 404. *)
Lemma Callback_then_Code (state code : string) (now now' now'' : time.Time)
    (w : world (gmap string value)) :
  state ≠ "" -> code ≠ "" -> now' <= time.Add now (5 * time.Minute) ->
  let w1 := (run now (CallbackHandler state code) w).2 in
  let w2 := (run now' (CodeHandler state) w1).2 in
  status (run now' (CodeHandler state) w1).1 = StatusOK ∧
  written (run now' (CodeHandler state) w1).1 = code_json code ∧
  status (run now'' (CodeHandler state) w2).1 = StatusNotFound.
Proof.
  intros Hs Hc Hlive w1 w2.
  assert (w_store w1 !! ("s:" +:+ state)
          = Some (mkValue (time.Add now (5 * time.Minute)) code)) as Hk.
  { subst w1. destruct (CallbackHandler_stores state code now w Hs Hc) as [_ ->].
    apply lookup_insert_eq. }
  destruct (CodeHandler_found now' w1 state _ Hk Hlive) as (H200 & Hbody & Hst).
  split_and!; [done..|].
  apply CodeHandler_unknown. subst w2. rewrite Hst. apply lookup_delete_eq.
Qed.

(** The formatted body reads back as the code when the code is made of
    ASCII characters that JSON does not require to be escaped. *)
Lemma json_string_body_plain (code tail : string) :
  forallb json_plain_char (list_ascii_of_string code) = true ->
  json_string_body (code +:+ dq +:+ tail) = Some (code, tail).
Proof.
  induction code as [|c code IH]; intros Hplain.
  - reflexivity.
  - cbn [list_ascii_of_string forallb] in Hplain.
    apply andb_true_iff in Hplain as [Hc Hrest].
    unfold json_plain_char in Hc.
    apply andb_true_iff in Hc as [Hc _].
    apply andb_true_iff in Hc as [Hc Hctl].
    apply andb_true_iff in Hc as [Hq Hb].
    apply negb_true_iff in Hq, Hb, Hctl.
    change (String c code +:+ dq +:+ tail) with (String c (code +:+ dq +:+ tail)).
    cbn [json_string_body]. rewrite Hq, Hb, Hctl. by rewrite IH.
Qed.

Lemma strip_prefix_app (pre s : string) : strip_prefix pre (pre +:+ s) = Some s.
Proof.
  induction pre as [|c pre IH]; [by destruct s|].
  change (String c pre +:+ s) with (String c (pre +:+ s)).
  cbn [strip_prefix]. by rewrite bool_decide_eq_true_2.
Qed.

(** X16.  When the stored code is made of ASCII characters from the
    space (32) to DEL (127) with no double quote and no backslash among
    them, the body Code writes reads back, as a JSON object, to exactly
    that code. *)
Lemma read_code_response_plain (code : string) :
  forallb json_plain_char (list_ascii_of_string code) = true ->
  read_code_response (code_json code) = Some code.
Proof.
  intros Hplain. unfold read_code_response.
  change (code_json code)
    with (("{" +:+ dq +:+ "code" +:+ dq +:+ ": " +:+ dq) +:+ (code +:+ dq +:+ "}")).
  rewrite strip_prefix_app, json_string_body_plain by done.
  by rewrite bool_decide_eq_true_2.
Qed.

(** C8, a code with a double quote in it.  The callback delivers the
    three-character code made of a, a double quote and b under state S;
    a poll one nanosecond later gets status 200 and a body in which the
    code is inserted as it is.  That body is not a JSON object whose
    member code is the stored code: read as JSON, the string ends at the
    quote inside the code and the closing brace does not follow. *)
Theorem Code_response_not_escaped :
  let code := "a" +:+ dq +:+ "b" in
  let w1 := (run 0 (CallbackHandler "S" code) demo_world).2 in
  let resp := (run 1 (CodeHandler "S") w1).1 in
  w_store w1 !! "s:S" = Some (mkValue (5 * time.Minute) code) ∧
  status resp = 200 ∧
  written resp = "{" +:+ dq +:+ "code" +:+ dq +:+ ": " +:+ dq
                 +:+ "a" +:+ dq +:+ "b" +:+ dq +:+ "}" ∧
  read_code_response (written resp) = None ∧
  read_code_response (written resp) ≠ Some code.
Proof.
  intros code w1 resp. split_and!; try (vm_compute; reflexivity).
  vm_compute. discriminate.
Qed.

(** ** End-to-end scenarios, against a fresh in-process store *)

(** Scenario A: Start answers with the state token as key and a redirect
    URL embedding the initiation token; the first Redirect renders the
    form, the second finds nothing. *)
Example scenario_A :
  let r1 := run 0 (StartHandler demo_codec demo_base demo_body) demo_world in
  let r2 := run 1 (RedirectHandler demo_codec demo_I) r1.2 in
  let r3 := run 2 (RedirectHandler demo_codec demo_I) r2.2 in
  status r1.1 = 200 ∧
  w_calls r1.2
  = [CallSetEx ("i:" +:+ demo_I)
       "{'manifest':{'name':'demo','redirect_url':'https://gamf.example/callback'},'target_type':'user','token':'02..02'}"
       (10 * time.Minute)] ∧
  rendered r2.1
  = Some {| tmpl_Manifest := "{'name':'demo','redirect_url':'https://gamf.example/callback'}";
            tmpl_Action := "https://github.example/settings/apps/new?state=" +:+ demo_S |} ∧
  status r3.1 = 404 ∧
  w_store r3.2 = ∅.
Proof. vm_compute. repeat split; reflexivity. Qed.

(** Scenario B: the callback redirects to the completion page; the first
    poll returns the code, the second finds nothing. *)
Example scenario_B :
  let r1 := run 0 (CallbackHandler demo_S "XYZ") demo_world in
  let r2 := run 1 (CodeHandler demo_S) r1.2 in
  let r3 := run 2 (CodeHandler demo_S) r2.2 in
  r1.1 = [http_Redirect "/done" 302] ∧
  status r2.1 = 200 ∧
  read_code_response (written r2.1) = Some "XYZ" ∧
  status r3.1 = 404.
Proof. vm_compute. repeat split; reflexivity. Qed.

(** A record that is never redeemed is gone after its TTL: a poll later
    than five minutes after the callback finds nothing. *)
Example scenario_expired :
  let r1 := run 0 (CallbackHandler demo_S "XYZ") demo_world in
  status (run (5 * time.Minute) (CodeHandler demo_S) r1.2).1 = 200 ∧
  status (run (5 * time.Minute + 1) (CodeHandler demo_S) r1.2).1 = 404.
Proof. vm_compute. repeat split; reflexivity. Qed.

(** * Part III: further properties *)

(** ** The in-process store as a sequential object *)

Lemma last_on_snoc key os o :
  last_on key (os ++ [o])
  = if bool_decide (op_key o = key) then Some o else last_on key os.
Proof. unfold last_on. by rewrite foldl_app. Qed.

Lemma run_ops_snoc os o d : run_ops (os ++ [o]) d = run_op o (run_ops os d).
Proof. unfold run_ops. by rewrite foldl_app. Qed.

Lemma run_ops_last_on (d : gmap string value) (os : list op) (key : string) :
  run_ops os d !! key
  = match last_on key os with
    | None => d !! key
    | Some (OpGetDel _ _) => None
    | Some (OpSetEx now _ v ttl) => Some {| val := v; exp := time.Add now ttl |}
    end.
Proof.
  induction os as [|o os IH] using rev_ind; [done|].
  rewrite run_ops_snoc, last_on_snoc. case_bool_decide as Hk.
  - destruct o as [now k|now k v ttl]; simpl in Hk; subst k; unfold run_op.
    + apply GetDel_removes.
    + apply SetEx_lookup.
  - rewrite <- IH.
    destruct o as [now k|now k v ttl]; simpl in Hk; unfold run_op.
    + by apply GetDel_other.
    + by apply SetEx_other.
Qed.

(** X1.  After any sequence of [GetDel] and [SetEx] calls, what the store
    holds under a key is decided by the last call on that key alone: no
    record if that call was a [GetDel] (whatever it returned), the value
    and expiry instant of that call if it was a [SetEx] (an earlier record
    is overwritten and its expiry replaced), and the initial record if the
    key was never touched (also when that record has long expired, since
    nothing but an access removes it).  A [GetDel] at instant [t] after
    such a sequence accordingly returns the value of the last [SetEx] when
    [t] is not after its expiry instant, and [NotFound] otherwise. *)
Theorem store_decided_by_last_call
    (d : gmap string value) (os : list op) (key : string) (t : time.Time) :
  run_ops os d !! key
  = match last_on key os with
    | None => d !! key
    | Some (OpGetDel _ _) => None
    | Some (OpSetEx now _ v ttl) => Some {| val := v; exp := time.Add now ttl |}
    end ∧
  (memStore.GetDel t (run_ops os d) key).1
  = match last_on key os with
    | None => (memStore.GetDel t d key).1
    | Some (OpGetDel _ _) => NotFound
    | Some (OpSetEx now _ v ttl) =>
        if bool_decide (t <= time.Add now ttl) then (v, None) else NotFound
    end.
Proof.
  split; [apply run_ops_last_on|].
  unfold memStore.GetDel at 1. rewrite run_ops_last_on.
  destruct (last_on key os) as [[now k|now k v ttl]|]; [done| |].
  - simpl. unfold time.After. by repeat case_bool_decide; try lia.
  - unfold memStore.GetDel. by destruct (d !! key) as [v|]; [destruct (time.After _ _)|].
Qed.

(** X2.  The store never holds more records than it held at the start
    plus the number of [SetEx] calls made since: [GetDel] adds nothing,
    and a [SetEx] adds at most one record. *)
Theorem store_size_bound (d : gmap string value) (os : list op) :
  (size (run_ops os d) <= size d + count_SetEx os)%nat.
Proof.
  induction os as [|o os IH] using rev_ind; [simpl; lia|].
  rewrite run_ops_snoc. unfold count_SetEx in *.
  rewrite List.filter_app, length_app.
  destruct o as [now k|now k v ttl]; unfold run_op.
  - rewrite GetDel_state, map_size_delete.
    destruct (run_ops os d !! k); simpl; lia.
  - unfold memStore.SetEx. cbn [snd]. rewrite map_size_insert.
    destruct (run_ops os d !! k); simpl; lia.
Qed.

(** ** Concurrent callers: the mutex, progress and termination *)

Section concurrent_runs.
Import Concurrent.

Ltac upd H :=
  let Hne := fresh "Hne" in
  apply list_lookup_insert_Some in H as [(<- & H & _)|(Hne & H)].

Lemma exec_invariant (P : state -> Prop) :
  (∀ a s s', P s -> step a s = Some s' -> P s') ->
  ∀ acts s s', P s -> exec acts s = Some s' -> P s'.
Proof.
  intros Hstep acts. induction acts as [|a acts IH]; intros s s' HP Hex.
  - rewrite exec_nil in Hex. by simplify_eq.
  - destruct (step a s) as [s1|] eqn:Hs.
    + rewrite (exec_cons _ _ _ _ Hs) in Hex. eauto.
    + unfold exec in Hex. by rewrite Hs in Hex.
Qed.

(** A locked mutex has a holder. *)
Lemma step_holder a s s' :
  (locked s = true -> ∃ i key p, threads s !! i = Some (key, p) ∧ held p = true) ->
  step a s = Some s' ->
  (locked s' = true -> ∃ i key p, threads s' !! i = Some (key, p) ∧ held p = true).
Proof.
  intros Hinv Hstep. destruct a as [delta|i]; simpl in Hstep.
  { case_bool_decide; by simplify_eq. }
  destruct (threads s !! i) as [[key p]|] eqn:Hi; [|done].
  assert (i < length (threads s))%nat as Hlen by (by eapply lookup_lt_Some).
  assert (∀ q lk dd, held q = true ->
            ∃ j key' p', threads (mkState dd lk (now s) (<[i:=(key, q)]> (threads s)))
                         !! j = Some (key', p') ∧ held p' = true) as Hme.
  { intros q lk dd Hq. exists i, key, q. simpl.
    by rewrite list_lookup_insert_eq. }
  destruct p as [| |v|r|r|r]; repeat case_match; simplify_eq;
    try (intros _; by apply Hme); by intros [=].
Qed.

Lemma lock_inv_init d0 t0 ts :
  Forall (fun t => t.2 = AtLock) ts -> lock_inv (mkState d0 false t0 ts).
Proof.
  intros Hts. rewrite Forall_lookup in Hts. exists 0%nat. simpl.
  intros i key p Hi Hheld. specialize (Hts _ _ Hi). simpl in Hts. by subst.
Qed.

(** What holds of the mutex in every state of a run. *)
Lemma lock_invariants (d0 : gmap string value) (t0 : time.Time)
    (ts : list (string * pc)) (acts : list action) (s : state) :
  Forall (fun t => t.2 = AtLock) ts ->
  exec acts (mkState d0 false t0 ts) = Some s ->
  lock_inv s ∧
  (locked s = true -> ∃ i key p, threads s !! i = Some (key, p) ∧ held p = true).
Proof.
  intros Hts Hex. split.
  - eapply (exec_invariant lock_inv); [|by apply lock_inv_init|exact Hex].
    intros a s1 s2. apply step_lock_inv.
  - refine (exec_invariant (fun s => locked s = true ->
              ∃ i key p, threads s !! i = Some (key, p) ∧ held p = true)
              _ _ _ _ _ Hex); [|simpl; by intros [=]].
    intros a s1 s2. apply step_holder.
Qed.

(** X3.  In every state of a run of callers that all start before
    [Lock], at most one caller is between its [Lock] and its deferred
    [Unlock], and the mutex is locked exactly when there is one. *)
Theorem mutual_exclusion (d0 : gmap string value) (t0 : time.Time)
    (ts : list (string * pc)) (acts : list action) (s : state) :
  Forall (fun t => t.2 = AtLock) ts ->
  exec acts (mkState d0 false t0 ts) = Some s ->
  (∀ i j ki kj p q,
     threads s !! i = Some (ki, p) -> threads s !! j = Some (kj, q) ->
     held p = true -> held q = true -> i = j) ∧
  (locked s = true ↔ ∃ i key p, threads s !! i = Some (key, p) ∧ held p = true).
Proof.
  intros Hts Hex.
  destruct (lock_invariants d0 t0 ts acts s Hts Hex) as [[h Hh] Hholder].
  split.
  - intros i j ki kj p q Hi Hj Hp Hq.
    destruct (Hh _ _ _ Hi Hp) as [_ ->]. by destruct (Hh _ _ _ Hj Hq) as [_ ->].
  - split; [done|]. intros (i & key & p & Hi & Hp). by destruct (Hh _ _ _ Hi Hp).
Qed.

Lemma mutual_exclusion_witness :
  ∃ s,
    exec [Run 1; Run 1; Tick 2] (mkState ∅ false 0 (callers 3 "k")) = Some s ∧
    locked s = true ∧
    ∀ i j ki kj p q,
      threads s !! i = Some (ki, p) -> threads s !! j = Some (kj, q) ->
      held p = true -> held q = true -> i = j.
Proof.
  exists (mkState ∅ true 2 [("k", AtLock); ("k", AtUnlock NotFound); ("k", AtLock)]).
  split; [vm_compute; reflexivity|]. split; [reflexivity|].
  apply (mutual_exclusion ∅ 0 (callers 3 "k") [Run 1; Run 1; Tick 2]).
  - repeat constructor.
  - vm_compute. reflexivity.
Defined.

(** X4.  A run never gets stuck: in every state reached by callers that
    all start before [Lock], as long as some caller has not returned
    there is a caller whose next statement can execute. *)
Theorem no_deadlock (d0 : gmap string value) (t0 : time.Time)
    (ts : list (string * pc)) (acts : list action) (s : state) :
  Forall (fun t => t.2 = AtLock) ts ->
  exec acts (mkState d0 false t0 ts) = Some s ->
  (∃ i t, threads s !! i = Some t ∧ ¬ returned t) ->
  ∃ i s', step (Run i) s = Some s'.
Proof.
  intros Hts Hex (i & [key p] & Hi & Hnot).
  destruct (lock_invariants d0 t0 ts acts s Hts Hex) as [[h Hh] Hholder].
  assert (∀ q, held q = true -> threads s !! i = Some (key, q) -> locked s = true)
    as Hlocked by (intros q Hq Hq'; by destruct (Hh _ _ _ Hq' Hq)).
  destruct (locked s) eqn:Hl.
  - destruct (Hholder eq_refl) as (j & kj & q & Hj & Hq).
    exists j. simpl. rewrite Hj.
    destruct q as [| |v|r|r|r]; try done; eauto.
    + destruct (d s !! kj); eauto.
    + destruct (time.After _ _); eauto.
  - exists i. simpl. rewrite Hi.
    destruct p as [| |v|r|r|r].
    + rewrite Hl. eauto.
    + by specialize (Hlocked AtLookup eq_refl Hi).
    + by specialize (Hlocked (AtCheck v) eq_refl Hi).
    + by specialize (Hlocked (AtDelete r) eq_refl Hi).
    + by specialize (Hlocked (AtUnlock r) eq_refl Hi).
    + destruct Hnot. by exists r.
Qed.

Lemma no_deadlock_witness :
  ∃ s,
    exec [Run 1; Run 1; Tick 2] (mkState ∅ false 0 (callers 3 "k")) = Some s ∧
    step (Run 0) s = None ∧
    ∃ i s', step (Run i) s = Some s'.
Proof.
  exists (mkState ∅ true 2 [("k", AtLock); ("k", AtUnlock NotFound); ("k", AtLock)]).
  split; [vm_compute; reflexivity|]. split; [reflexivity|].
  apply (no_deadlock ∅ 0 (callers 3 "k") [Run 1; Run 1; Tick 2]).
  - repeat constructor.
  - vm_compute. reflexivity.
  - exists 0%nat, ("k", AtLock). split; [reflexivity|]. intros [r Hr]. discriminate.
Defined.

Lemma work_insert ts i (x y : string * pc) :
  ts !! i = Some x ->
  (work (<[i := y]> ts) + remaining x.2 = work ts + remaining y.2)%nat.
Proof.
  revert i. induction ts as [|t ts IH]; intros [|i] Hi; simplify_eq/=.
  - unfold work. rewrite !fmap_cons. simpl. lia.
  - specialize (IH _ Hi). unfold work in *. rewrite !fmap_cons. simpl. lia.
Qed.

Lemma step_work a s s' :
  step a s = Some s' ->
  ((if is_Run a then 1 else 0) + work (threads s') <= work (threads s))%nat.
Proof.
  intros Hstep. destruct a as [delta|i]; simpl in Hstep.
  { case_bool_decide; simplify_eq. simpl. lia. }
  destruct (threads s !! i) as [[key p]|] eqn:Hi; [|done].
  destruct p as [| |v|r|r|r]; repeat case_match; simplify_eq; simpl;
    match goal with
    | |- context [work (<[i := ?y]> _)] =>
        pose proof (work_insert _ _ _ y Hi) as Hw; simpl in Hw; lia
    end.
Qed.

Lemma work_AtLock ts :
  Forall (fun t => t.2 = AtLock) ts -> work ts = (5 * length ts)%nat.
Proof.
  induction 1 as [|[k p] ts Hp _ IH]; [done|]. simpl in Hp. subst p.
  unfold work in *. rewrite fmap_cons. simpl. lia.
Qed.

(** X5.  A run terminates: whatever the schedule, callers that all start
    before [Lock] execute at most five statements each, so a schedule
    contains at most five times as many statement steps as there are
    callers. *)
Theorem schedule_bounded (d0 : gmap string value) (lk : bool) (t0 : time.Time)
    (ts : list (string * pc)) (acts : list action) (s : state) :
  Forall (fun t => t.2 = AtLock) ts ->
  exec acts (mkState d0 lk t0 ts) = Some s ->
  (count_Run acts <= 5 * length ts)%nat.
Proof.
  intros Hts Hex. rewrite <- (work_AtLock ts Hts).
  change ts with (threads (mkState d0 lk t0 ts)).
  generalize dependent (mkState d0 lk t0 ts). clear Hts.
  induction acts as [|a acts IH]; intros s0 Hex.
  - unfold count_Run. simpl. lia.
  - destruct (step a s0) as [s1|] eqn:Hs;
      [|unfold exec in Hex; by rewrite Hs in Hex].
    rewrite (exec_cons _ _ _ _ Hs) in Hex.
    specialize (IH _ Hex). pose proof (step_work _ _ _ Hs) as Hw.
    unfold count_Run in *. simpl. destruct (is_Run a); simpl in *; lia.
Qed.

Lemma schedule_bounded_witness :
  (count_Run (Run 0 :: Run 0 :: Tick 3%Z ::
              replicate 3 (Run 0) ++ replicate 3 (Run 1)) <= 5 * 2)%nat.
Proof.
  apply (schedule_bounded (memStore.SetEx 0 ∅ "k" "v" 5).2 false 1
           (callers 2 "k") _
           (mkState ∅ false 4 [("k", Returned ("v", None)); ("k", Returned NotFound)])).
  - repeat constructor.
  - vm_compute. reflexivity.
Defined.

Lemma step_only_deletes (d0 : gmap string value) a s s' :
  (d s ⊆ d0 ∧
   ∀ i k p, threads s !! i = Some (k, p) ->
     sourced d0 k p ∧
     ((∃ r, p = AtUnlock r ∨ p = Returned r) -> d s !! k = None)) ->
  step a s = Some s' ->
  (d s' ⊆ d0 ∧
   ∀ i k p, threads s' !! i = Some (k, p) ->
     sourced d0 k p ∧
     ((∃ r, p = AtUnlock r ∨ p = Returned r) -> d s' !! k = None)).
Proof.
  intros [Hsub Hall] Hstep. destruct a as [delta|i]; simpl in Hstep.
  { case_bool_decide; by simplify_eq. }
  destruct (threads s !! i) as [[key p]|] eqn:Hi; [|done].
  destruct (Hall _ _ _ Hi) as [Hsrc Hgone].
  destruct p as [| |v|r|r|r].
  - destruct (locked s); simplify_eq. split; [done|]. simpl.
    intros j k p Hj. upd Hj; [|by eauto]. simplify_eq.
    split; [done|]. intros (r & [?|?]); done.
  - destruct (d s !! key) as [v|] eqn:Hk; simplify_eq; (split; [done|]); simpl;
      intros j k p Hj; (upd Hj; [|by eauto]); simplify_eq.
    + split; [|intros (r & [?|?]); done]. simpl.
      by eapply lookup_weaken.
    + split; done.
  - assert (s' = set_thread s i key
              (if time.After (now s) (exp v) then AtDelete NotFound
               else AtDelete (val v, None))) as ->
      by (destruct (time.After _ _); by simplify_eq).
    split; [done|]. simpl. intros j k p Hj. upd Hj; [|by eauto]. simplify_eq.
    split; [|intros (r & [?|?]); by destruct (time.After _ _)].
    simpl in Hsrc. destruct (time.After _ _); simpl; eauto.
  - simplify_eq. split; [by etrans; [apply delete_subseteq|]|]. simpl.
    intros j k p Hj. upd Hj.
    + simplify_eq. split; [done|]. intros _. apply lookup_delete_eq.
    + destruct (Hall _ _ _ Hj) as [? Hg]. split; [done|]. intros Hr.
      apply lookup_delete_None. right. by apply Hg.
  - simplify_eq. split; [done|]. simpl.
    intros j k p Hj. upd Hj; [|by eauto]. simplify_eq.
    split; [done|]. intros _. apply Hgone. eauto.
  - done.
Qed.

(** X6.  Callers of [GetDel] only ever delete: in every state of a run
    the map is contained in the map the run started from; once a caller
    has returned, its key holds no record; and a value returned by a
    caller is the value that was stored under its key at the start. *)
Theorem callers_only_delete (d0 : gmap string value) (lk : bool) (t0 : time.Time)
    (ts : list (string * pc)) (acts : list action) (s : state) :
  Forall (fun t => t.2 = AtLock) ts ->
  exec acts (mkState d0 lk t0 ts) = Some s ->
  d s ⊆ d0 ∧
  (∀ i k r, threads s !! i = Some (k, Returned r) -> d s !! k = None) ∧
  (∀ i k x, threads s !! i = Some (k, Returned (x, None)) ->
            ∃ v, d0 !! k = Some v ∧ val v = x).
Proof.
  intros Hts Hex. rewrite Forall_lookup in Hts.
  assert (d s ⊆ d0 ∧
          ∀ i k p, threads s !! i = Some (k, p) ->
            sourced d0 k p ∧
            ((∃ r, p = AtUnlock r ∨ p = Returned r) -> d s !! k = None))
    as [Hsub Hall].
  { refine (exec_invariant (fun s => d s ⊆ d0 ∧
              ∀ i k p, threads s !! i = Some (k, p) ->
                sourced d0 k p ∧
                ((∃ r, p = AtUnlock r ∨ p = Returned r) -> d s !! k = None))
              _ _ _ _ _ Hex); [apply step_only_deletes|].
    split; [done|]. simpl. intros i k p Hi.
    specialize (Hts _ _ Hi). simpl in Hts. subst p.
    split; [done|]. intros (r & [?|?]); done. }
  split_and!; [done| |].
  - intros i k r Hi. apply (Hall _ _ _ Hi). eauto.
  - intros i k x Hi. by destruct (Hall _ _ _ Hi) as [Hsrc _].
Qed.

Lemma callers_only_delete_witness :
  let d0 := <["k" := mkValue 5 "v"]> (<["j" := mkValue 9 "u"]> ∅) in
  ∃ s,
    exec (replicate 5 (Run 0) ++ replicate 3 (Run 1))
         (mkState d0 false 1 (callers 2 "k")) = Some s ∧
    d s ⊆ d0 ∧ d s !! "k" = None ∧ d s !! "j" = Some (mkValue 9 "u").
Proof.
  intros d0.
  exists (mkState (<["j" := mkValue 9 "u"]> ∅) false 1
            [("k", Returned ("v", None)); ("k", Returned NotFound)]).
  split; [vm_compute; reflexivity|].
  destruct (callers_only_delete d0 false 1 (callers 2 "k")
              (replicate 5 (Run 0) ++ replicate 3 (Run 1))
              (mkState (<["j" := mkValue 9 "u"]> ∅) false 1
                 [("k", Returned ("v", None)); ("k", Returned NotFound)]))
    as (Hsub & Hgone & _).
  - repeat constructor.
  - vm_compute. reflexivity.
  - split_and!; [exact Hsub| |reflexivity].
    apply (Hgone 0%nat "k" ("v", None)). reflexivity.
Defined.

End concurrent_runs.

Lemma solo_GetDel_witness :
  ∃ acts,
    Concurrent.exec acts
      (Concurrent.mkState (<["k" := mkValue 5 "v"]> ∅) false 7
                          (Concurrent.callers 2 "k"))
    = Some (Concurrent.mkState
              (memStore.GetDel 7 (<["k" := mkValue 5 "v"]> ∅) "k").2 false 7
              (<[1%nat := ("k", Concurrent.Returned
                         (memStore.GetDel 7 (<["k" := mkValue 5 "v"]> ∅) "k").1)]>
                 (Concurrent.callers 2 "k"))).
Proof.
  exact (solo_GetDel
           (Concurrent.mkState (<["k" := mkValue 5 "v"]> ∅) false 7
                               (Concurrent.callers 2 "k")) 1 "k"
           eq_refl eq_refl).
Defined.

(** ** What every response looks like *)

Section responses.
Context {St : Type} `{Store St}.

Lemma results_all_bind {A B : Type} (P : B -> Prop) (p : prog A) (f : A -> prog B) :
  (∀ a, results_all P (f a)) -> results_all P (bind p f).
Proof.
  intros Hf. induction p as [a|n k IH|key k IH|key v ttl k IH]; simpl; eauto.
Qed.

Lemma run_results_all {A : Type} (P : A -> Prop) now (p : prog A) (w : world St) :
  results_all P p -> P (run now p w).1.
Proof.
  revert w. induction p as [a|n k IH|key k IH|key v ttl k IH];
    intros w Hp; simpl in *; eauto.
Qed.

End responses.

Lemma StartHandler_results (P : list writerCall -> Prop)
    (J : json_codec) (baseURL body : string) :
  (∀ msg, P (fail_json StatusBadRequest msg)) ->
  (∀ msg, P (fail_json StatusInternalServerError msg)) ->
  (∀ msg, P (Header_Add "Content-Type" "application/json"
             :: fail_json StatusInternalServerError msg)) ->
  (∀ b, P [Header_Add "Content-Type" "application/json"; Write b]) ->
  results_all P (StartHandler J baseURL body).
Proof.
  intros H400 H500 H500' H200. unfold StartHandler.
  destruct (Decode_startRequest J body); [|apply H400].
  apply results_all_bind. intros r1. destruct (r1.2); [apply H500|].
  apply results_all_bind. intros r2. destruct (r2.2); [apply H500|].
  destruct (Marshal_startRequest J _); [|apply H500]. simpl.
  intros [e|]; [apply H500|].
  destruct (Marshal_startResponse J _ _); [apply H200|apply H500'].
Qed.

Lemma RedirectHandler_results (P : list writerCall -> Prop)
    (J : json_codec) (key : string) :
  (∀ msg, P (fail_text StatusNotFound msg)) ->
  (∀ msg, P (fail_text StatusInternalServerError msg)) ->
  (∀ data, P [tmpl_Execute data]) ->
  results_all P (RedirectHandler J key).
Proof.
  intros H404 H500 H200. unfold RedirectHandler. simpl. intros r.
  destruct (r.2) as [e|].
  - case_bool_decide; [apply H404|apply H500].
  - destruct (Decode_startRequest J _); [|apply H500].
    destruct (Marshal_manifest J _); [apply H200|apply H500].
Qed.

Lemma CallbackHandler_results (P : list writerCall -> Prop) (state code : string) :
  (∀ msg, P (fail_text StatusBadRequest msg)) ->
  P [http_Redirect "/done" StatusFound] ->
  results_all P (CallbackHandler state code).
Proof.
  intros H400 H302. unfold CallbackHandler.
  destruct (_ || _); [apply H400|]. simpl. intros [e|]; [apply H400|apply H302].
Qed.

Lemma CodeHandler_results (P : list writerCall -> Prop) (key : string) :
  (∀ msg, P (fail_json StatusNotFound msg)) ->
  (∀ b, P [WriteHeader StatusInternalServerError;
           Header_Add "Content-Type" "application/json"; Write b]) ->
  (∀ b, P [Header_Add "Content-Type" "application/json"; Write b]) ->
  results_all P (CodeHandler key).
Proof.
  intros H404 H500 H200. unfold CodeHandler. simpl. intros r.
  destruct (r.2) as [e|]; [|apply H200].
  case_bool_decide; [apply H404|apply H500].
Qed.

(** X8.  Whatever the request, the store and the random source do, each
    handler answers with one of a few statuses: Start with 200, 400 or
    500; Redirect with 200, 404 or 500; Callback with 302 or 400 (never
    500); Code with 200, 404 or 500. *)
Theorem handler_statuses {St : Type} `{Store St} (J : json_codec)
    (baseURL body key state code : string) (now : time.Time) (w : world St) :
  (let s := status (run now (StartHandler J baseURL body) w).1 in
   s = 200 ∨ s = 400 ∨ s = 500) ∧
  (let s := status (run now (RedirectHandler J key) w).1 in
   s = 200 ∨ s = 404 ∨ s = 500) ∧
  (let s := status (run now (CallbackHandler state code) w).1 in
   s = 302 ∨ s = 400) ∧
  (let s := status (run now (CodeHandler key) w).1 in
   s = 200 ∨ s = 404 ∨ s = 500).
Proof.
  split_and!.
  - apply (run_results_all (fun resp => status resp = 200 ∨ status resp = 400
                                        ∨ status resp = 500)).
    apply StartHandler_results; simpl; tauto.
  - apply (run_results_all (fun resp => status resp = 200 ∨ status resp = 404
                                        ∨ status resp = 500)).
    apply RedirectHandler_results; simpl; tauto.
  - apply (run_results_all (fun resp => status resp = 302 ∨ status resp = 400)).
    apply CallbackHandler_results; simpl; tauto.
  - apply (run_results_all (fun resp => status resp = 200 ∨ status resp = 404
                                        ∨ status resp = 500)).
    apply CodeHandler_results; simpl; tauto.
Qed.



(** ** What a request costs *)

(** X10.  One request makes at most one store call.  Redirect and Code
    make exactly one [GetDel], on their prefixed key; Callback makes one
    [SetEx] when both parameters are present and none otherwise; none of
    the three reads the random source.  Start makes at most one store
    call and reads the random source at most twice, and it makes its
    store call only after both reads. *)
Theorem effects_per_request {St : Type} `{Store St} (J : json_codec)
    (baseURL body key state code : string) (now : time.Time) (w : world St) :
  (w_calls (run now (RedirectHandler J key) w).2
   = (w_calls w ++ [CallGetDel ("i:" +:+ key)])%list ∧
   w_reads (run now (RedirectHandler J key) w).2 = w_reads w) ∧
  (w_calls (run now (CodeHandler key) w).2
   = (w_calls w ++ [CallGetDel ("s:" +:+ key)])%list ∧
   w_reads (run now (CodeHandler key) w).2 = w_reads w) ∧
  (w_calls (run now (CallbackHandler state code) w).2
   = (w_calls w ++
      if bool_decide (state = "") || bool_decide (code = "") then []
      else [CallSetEx ("s:" +:+ state) code (5 * time.Minute)])%list ∧
   w_reads (run now (CallbackHandler state code) w).2 = w_reads w) ∧
  (∃ new,
     w_calls (run now (StartHandler J baseURL body) w).2 = (w_calls w ++ new)%list ∧
     (length new <= 1)%nat ∧
     (w_reads w <= w_reads (run now (StartHandler J baseURL body) w).2
      <= w_reads w + 2)%nat ∧
     (new ≠ [] ->
      w_reads (run now (StartHandler J baseURL body) w).2 = (w_reads w + 2)%nat)).
Proof.
  refine (conj _ (conj _ (conj _ _))).
  - unfold RedirectHandler. cbn [run].
    destruct ((Store_GetDel now (w_store w) ("i:" +:+ key)).1.2) as [e|].
    + by case_bool_decide.
    + destruct (Decode_startRequest J _); [|done].
      by destruct (Marshal_manifest J _).
  - unfold CodeHandler. cbn [run].
    destruct ((Store_GetDel now (w_store w) ("s:" +:+ key)).1.2) as [e|]; [|done].
    by case_bool_decide.
  - unfold CallbackHandler.
    destruct (bool_decide (state = "") || bool_decide (code = "")).
    + cbn [run]. by rewrite app_nil_r.
    + cbn [run]. by destruct ((Store_SetEx _ _ _ _ _).1).
  - unfold StartHandler.
    destruct (Decode_startRequest J body) as [request|].
    2: { exists []. cbn [run]. rewrite app_nil_r. simpl. split_and!; try done; lia. }
    rewrite run_bind, run_token. cbn [fst snd].
    destruct ((token_of (w_entropy w (w_reads w))).2).
    { exists []. cbn [run w_calls w_reads]. rewrite app_nil_r.
      simpl. split_and!; try done; lia. }
    rewrite run_bind, run_token. cbn [fst snd w_entropy w_reads w_store w_calls].
    destruct ((token_of (w_entropy w (S (w_reads w)))).2).
    { exists []. cbn [run w_calls w_reads]. rewrite app_nil_r.
      simpl. split_and!; try done; lia. }
    destruct (Marshal_startRequest J _) as [payload|].
    2: { exists []. cbn [run w_calls w_reads]. rewrite app_nil_r.
         simpl. split_and!; try done; lia. }
    eexists [_]. cbn [run w_store w_calls w_reads].
    destruct ((Store_SetEx _ _ _ _ _).1);
      [|destruct (Marshal_startResponse J _ _)];
      cbn [run snd w_calls w_reads]; (split_and!; [done|simpl; lia..|intros; lia]).
Qed.

Lemma effects_per_request_witness :
  w_calls (run 0 (StartHandler demo_codec demo_base demo_body) demo_world).2 ≠ [] ∧
  w_reads (run 0 (StartHandler demo_codec demo_base demo_body) demo_world).2 = 2%nat.
Proof.
  destruct (effects_per_request demo_codec demo_base demo_body "" "" "" 0 demo_world)
    as (_ & _ & _ & new & Hcalls & _ & _ & Hreads).
  assert (new ≠ []) as Hnew.
  { intros ->. vm_compute in Hcalls. discriminate. }
  split; [vm_compute; discriminate|]. exact (Hreads Hnew).
Defined.

(** ** Store failures, for any store *)

(** X11.  When the store call of a request fails, Redirect and Code
    answer 500 for every error other than [redis.Nil], Start answers 500
    for every error of its [SetEx], and Callback answers 400 for every
    error of its [SetEx]. *)
Theorem store_failure_statuses {St : Type} `{Store St} (J : json_codec)
    (baseURL body key state code payload : string) (request : startRequest)
    (err : error) (now : time.Time) (w : world St) :
  ((Store_GetDel now (w_store w) ("i:" +:+ key)).1.2 = Some err ->
   err ≠ redis_Nil ->
   status (run now (RedirectHandler J key) w).1 = 500) ∧
  ((Store_GetDel now (w_store w) ("s:" +:+ key)).1.2 = Some err ->
   err ≠ redis_Nil ->
   status (run now (CodeHandler key) w).1 = 500) ∧
  (state ≠ "" -> code ≠ "" ->
   (Store_SetEx now (w_store w) ("s:" +:+ state) code (5 * time.Minute)).1 = Some err ->
   status (run now (CallbackHandler state code) w).1 = 400) ∧
  (Decode_startRequest J body = Some request ->
   (w_entropy w (w_reads w)).2 = None ->
   (w_entropy w (S (w_reads w))).2 = None ->
   Marshal_startRequest J
     (set_Token_RedirectURL (token_of (w_entropy w (S (w_reads w)))).1
        (baseURL +:+ "/callback") request) = Some payload ->
   (Store_SetEx now (w_store w)
      ("i:" +:+ (token_of (w_entropy w (w_reads w))).1) payload
      (10 * time.Minute)).1 = Some err ->
   status (run now (StartHandler J baseURL body) w).1 = 500).
Proof.
  refine (conj _ (conj _ (conj _ _))).
  - apply RedirectHandler_store_failure.
  - apply CodeHandler_store_failure.
  - apply CallbackHandler_store_failure.
  - intros. by eapply StartHandler_store_failure.
Qed.

Lemma store_failure_statuses_witness :
  let w := mkWorld tt demo_entropy 0 [] in
  status (run (H := redisStore unreachable) 5 (RedirectHandler demo_codec "abc") w).1 = 500 ∧
  status (run (H := redisStore unreachable) 5 (CodeHandler "abc") w).1 = 500 ∧
  status (run (H := redisStore unreachable) 5 (CallbackHandler "st" "XYZ") w).1 = 400 ∧
  status (run (H := redisStore unreachable) 5
              (StartHandler demo_codec demo_base demo_body) w).1 = 500.
Proof.
  intros w.
  destruct (store_failure_statuses (H := redisStore unreachable)
              demo_codec demo_base demo_body "abc" "st" "XYZ"
              "{'manifest':{'name':'demo','redirect_url':'https://gamf.example/callback'},'target_type':'user','token':'02..02'}"
              demo_request (other_error "dial tcp: connection refused") 5 w)
    as (Hr & Hc & Hcb & Hs).
  split_and!.
  - apply Hr; [reflexivity|discriminate].
  - apply Hc; [reflexivity|discriminate].
  - apply Hcb; [discriminate|discriminate|reflexivity].
  - apply Hs; reflexivity.
Defined.

(** ** Redirect consumes whatever it finds *)

Lemma RedirectHandler_store (J : json_codec) (key : string) now
    (w : world (gmap string value)) :
  w_store (run now (RedirectHandler J key) w).2
  = delete ("i:" +:+ key) (w_store w).
Proof.
  unfold RedirectHandler. cbn [run Store_GetDel memStore_Store].
  rewrite <- (GetDel_state (w_store w) ("i:" +:+ key) now).
  destruct ((memStore.GetDel now (w_store w) ("i:" +:+ key)).1.2) as [e|].
  - by case_bool_decide.
  - destruct (Decode_startRequest J _); [|done].
    by destruct (Marshal_manifest J _).
Qed.

Lemma RedirectHandler_unknown (J : json_codec) (key : string) now
    (w : world (gmap string value)) :
  (memStore.GetDel now (w_store w) ("i:" +:+ key)).1 = NotFound ->
  status (run now (RedirectHandler J key) w).1 = 404 ∧
  written (run now (RedirectHandler J key) w).1
  = "Error: failed to find metadata for the given key" ∧
  rendered (run now (RedirectHandler J key) w).1 = None.
Proof.
  intros Hnf. unfold RedirectHandler. cbn [run Store_GetDel memStore_Store].
  by rewrite Hnf.
Qed.

(** X12.  Against the in-process store a Redirect always leaves the store
    without the initiation record of its key, whatever it answered: a
    record that has expired, or that does not decode, is consumed all the
    same.  It answers 404 and renders nothing when the key has no record
    or the record has expired, and 500 with nothing rendered when the
    record does not decode.  A second Redirect on the same key, at any
    time, answers 404. *)
Theorem Redirect_single_use (J : json_codec) (key : string)
    (now now' : time.Time) (w : world (gmap string value)) :
  let r := run now (RedirectHandler J key) w in
  w_store r.2 = delete ("i:" +:+ key) (w_store w) ∧
  (status (run now' (RedirectHandler J key) r.2).1 = 404 ∧
   rendered (run now' (RedirectHandler J key) r.2).1 = None) ∧
  (w_store w !! ("i:" +:+ key) = None ->
   status r.1 = 404 ∧ rendered r.1 = None ∧
   written r.1 = "Error: failed to find metadata for the given key") ∧
  (∀ v, w_store w !! ("i:" +:+ key) = Some v -> exp v < now ->
        status r.1 = 404 ∧ rendered r.1 = None) ∧
  (∀ v, w_store w !! ("i:" +:+ key) = Some v -> now <= exp v ->
        Decode_startRequest J (val v) = None ->
        status r.1 = 500 ∧ rendered r.1 = None).
Proof.
  intros r. subst r. refine (conj _ (conj _ (conj _ (conj _ _)))).
  - apply RedirectHandler_store.
  - destruct (RedirectHandler_unknown J key now'
                (run now (RedirectHandler J key) w).2) as (? & ? & ?); [|done].
    rewrite GetDel_absent; [done|].
    rewrite RedirectHandler_store. apply lookup_delete_eq.
  - intros Hk.
    destruct (RedirectHandler_unknown J key now w) as (? & ? & ?); [|done].
    by rewrite (GetDel_absent _ _ _ Hk).
  - intros v Hk Hexp.
    destruct (RedirectHandler_unknown J key now w) as (? & ? & ?); [|done].
    by rewrite (GetDel_expired _ _ _ _ Hk Hexp).
  - intros v Hk Hlive Hdec. unfold RedirectHandler.
    cbn [run Store_GetDel memStore_Store].
    rewrite (GetDel_live _ _ _ _ Hk Hlive). cbn [fst snd]. by rewrite Hdec.
Qed.

Lemma Redirect_single_use_witness :
  let w := mkWorld (<["i:k1" := mkValue 100 "not a record"]>
                      (<["i:k2" := mkValue 100 "{'manifest':{'name':'demo'},'target_type':'org','target_slug':'acme'}"]> ∅))
                   demo_entropy 0 [] in
  status (run 7 (RedirectHandler demo_codec "k0") w).1 = 404 ∧
  status (run 101 (RedirectHandler demo_codec "k2") w).1 = 404 ∧
  status (run 7 (RedirectHandler demo_codec "k1") w).1 = 500 ∧
  w_store (run 7 (RedirectHandler demo_codec "k1") w).2 !! "i:k1" = None.
Proof.
  intros w.
  destruct (Redirect_single_use demo_codec "k0" 7 8 w) as (_ & _ & H0 & _ & _).
  destruct (Redirect_single_use demo_codec "k2" 101 102 w) as (_ & _ & _ & H2 & _).
  destruct (Redirect_single_use demo_codec "k1" 7 8 w) as (Hst & _ & _ & _ & H1).
  split_and!.
  - apply H0. reflexivity.
  - apply (H2 (mkValue 100 "{'manifest':{'name':'demo'},'target_type':'org','target_slug':'acme'}"));
      [reflexivity|simpl; lia].
  - apply (H1 (mkValue 100 "not a record")); [reflexivity|simpl; lia|reflexivity].
  - rewrite Hst. reflexivity.
Defined.

(** ** The whole handshake *)

Lemma token_of_nonempty (bs : list byte) : (token_of (bs, None)).1 ≠ "".
Proof.
  unfold token_of. cbn [fst snd]. intros Hempty.
  pose proof (hex_EncodeToString_length (copy_into (make_bytes 32) bs)) as Hlen.
  rewrite Hempty, copy_into_length in Hlen. discriminate.
Qed.

Lemma StartHandler_run_ok (J : json_codec) (baseURL body : string) now
    (w : world (gmap string value)) (request : startRequest)
    (payload jsonResponse : string) :
  let I := (token_of (w_entropy w (w_reads w))).1 in
  let S' := (token_of (w_entropy w (S (w_reads w)))).1 in
  Decode_startRequest J body = Some request ->
  (w_entropy w (w_reads w)).2 = None ->
  (w_entropy w (S (w_reads w))).2 = None ->
  Marshal_startRequest J
    (set_Token_RedirectURL S' (baseURL +:+ "/callback") request) = Some payload ->
  Marshal_startResponse J S' (baseURL +:+ "/redirect/" +:+ I) = Some jsonResponse ->
  run now (StartHandler J baseURL body) w
  = ([Header_Add "Content-Type" "application/json"; Write jsonResponse],
     mkWorld (<["i:" +:+ I := mkValue (time.Add now (10 * time.Minute)) payload]>
                (w_store w))
             (w_entropy w) (S (S (w_reads w)))
             (w_calls w ++ [CallSetEx ("i:" +:+ I) payload (10 * time.Minute)])).
Proof.
  intros I S' Hdec H1 H2 Hm Hresp. unfold StartHandler. rewrite Hdec.
  rewrite run_bind, run_token. cbn [fst snd].
  assert ((token_of (w_entropy w (w_reads w))).2 = None) as ->
    by (unfold token_of; by rewrite H1).
  rewrite run_bind, run_token. cbn [fst snd w_entropy w_reads].
  assert ((token_of (w_entropy w (S (w_reads w)))).2 = None) as ->
    by (unfold token_of; by rewrite H2).
  fold S'. rewrite Hm. cbn [run w_store Store_SetEx memStore_Store].
  fold I. unfold memStore.SetEx. cbn [fst snd]. by rewrite Hresp.
Qed.

Lemma CallbackHandler_run_ok (state code : string) now
    (w : world (gmap string value)) :
  state ≠ "" -> code ≠ "" ->
  run now (CallbackHandler state code) w
  = ([http_Redirect "/done" StatusFound],
     mkWorld (<["s:" +:+ state := mkValue (time.Add now (5 * time.Minute)) code]>
                (w_store w))
             (w_entropy w) (w_reads w)
             (w_calls w ++ [CallSetEx ("s:" +:+ state) code (5 * time.Minute)])).
Proof.
  intros Hs Hc. unfold CallbackHandler.
  by rewrite !bool_decide_eq_false_2 by done.
Qed.

(** X13.  One complete handshake against the in-process store.  Start
    decodes the request, draws the initiation token I and the state token
    S from two successful reads of the random source, and stores the
    encoded record; it answers 200 with the encoding of the pair (S,
    BASE/redirect/I).  A Redirect on I within ten minutes reads the record
    back; provided the stored text decodes, to some record [back] whose
    manifest can be encoded and whose token is the S it was stored with
    (decoding need not give back the record that was encoded, and
    [encoding/json] does not when [hook_attributes] is absent), it renders
    the form whose action URL carries that same S as its state.  A
    Callback with state S and a non-empty code answers 302 to /done.  A
    poll on S within five minutes of the callback answers 200 with the
    code, and afterwards neither record is left in the store. *)
Theorem handshake (J : json_codec) (baseURL body code : string)
    (t0 t1 t2 t3 : time.Time) (w : world (gmap string value))
    (request back : startRequest) (payload mj jsonResponse : string) :
  let I := (token_of (w_entropy w (w_reads w))).1 in
  let S' := (token_of (w_entropy w (S (w_reads w)))).1 in
  let r0 := run t0 (StartHandler J baseURL body) w in
  let r1 := run t1 (RedirectHandler J I) r0.2 in
  let r2 := run t2 (CallbackHandler S' code) r1.2 in
  let r3 := run t3 (CodeHandler S') r2.2 in
  Decode_startRequest J body = Some request ->
  (w_entropy w (w_reads w)).2 = None ->
  (w_entropy w (S (w_reads w))).2 = None ->
  Marshal_startRequest J
    (set_Token_RedirectURL S' (baseURL +:+ "/callback") request) = Some payload ->
  Marshal_startResponse J S' (baseURL +:+ "/redirect/" +:+ I) = Some jsonResponse ->
  Decode_startRequest J payload = Some back ->
  Marshal_manifest J (Manifest back) = Some mj ->
  Token back = S' ->
  code ≠ "" ->
  t1 <= time.Add t0 (10 * time.Minute) ->
  t3 <= time.Add t2 (5 * time.Minute) ->
  r0.1 = [Header_Add "Content-Type" "application/json"; Write jsonResponse] ∧
  rendered r1.1
  = Some {| tmpl_Manifest := mj;
            tmpl_Action :=
              if bool_decide (TargetType back = "org")
              then "https://" +:+ Host back +:+ "/organizations/"
                   +:+ TargetSlug back +:+ "/settings/apps/new?state=" +:+ S'
              else "https://" +:+ Host back
                   +:+ "/settings/apps/new?state=" +:+ S' |} ∧
  r2.1 = [http_Redirect "/done" 302] ∧
  (status r3.1 = 200 ∧ written r3.1 = code_json code) ∧
  (w_store r3.2 !! ("i:" +:+ I) = None ∧ w_store r3.2 !! ("s:" +:+ S') = None).
Proof.
  intros I S' r0 r1 r2 r3 Hdec H1 H2 Hm Hresp Hback Hmj Htok Hcode Ht1 Ht3.
  assert (S' ≠ "") as HS.
  { subst S'. destruct (w_entropy w (S (w_reads w))) as [bs e]. simpl in H2.
    subst e. apply token_of_nonempty. }
  pose proof (StartHandler_run_ok J baseURL body t0 w request payload jsonResponse
                Hdec H1 H2 Hm Hresp) as Hr0.
  cbv zeta in Hr0. fold I in Hr0. subst r3 r2 r1 r0. rewrite Hr0. cbn [fst snd].
  match goal with |- context [run t1 (RedirectHandler J I) ?w0] =>
    pose proof (RedirectHandler_renders J I t1 w0
                  (mkValue (time.Add t0 (10 * time.Minute)) payload) back mj
                  (lookup_insert_eq _ _ _) Ht1 Hback Hmj) as Hr1
  end.
  rewrite Hr1. cbn [fst snd rendered].
  match goal with |- context [run t2 (CallbackHandler S' code) ?w1] =>
    pose proof (CallbackHandler_run_ok S' code t2 w1 HS Hcode) as Hr2
  end.
  rewrite Hr2. cbn [fst snd].
  match goal with |- context [run t3 (CodeHandler S') ?w2] =>
    destruct (CodeHandler_found t3 w2 S'
                (mkValue (time.Add t2 (5 * time.Minute)) code)
                (lookup_insert_eq _ _ _) Ht3) as (H200 & Hbody & Hst)
  end.
  rewrite Hst. cbn [w_store].
  split_and!; try done.
  - unfold actionURL. by rewrite Htok.
  - rewrite lookup_delete_ne by (intros Heq; by apply (prefix_i_ne_s I S')).
    rewrite lookup_insert_ne by (intros Heq; by apply (prefix_i_ne_s I S')).
    apply lookup_delete_eq.
  - apply lookup_delete_eq.
Qed.

Lemma handshake_witness :
  let r0 := run 0 (StartHandler demo_codec demo_base demo_body) demo_world in
  let r1 := run 10 (RedirectHandler demo_codec demo_I) r0.2 in
  let r2 := run 20 (CallbackHandler demo_S "XYZ") r1.2 in
  let r3 := run 30 (CodeHandler demo_S) r2.2 in
  demo_back ≠ demo_stored ∧
  status r3.1 = 200 ∧ written r3.1 = code_json "XYZ".
Proof.
  intros r0 r1 r2 r3. split; [discriminate|].
  apply (handshake demo_codec demo_base demo_body "XYZ" 0 10 20 30 demo_world
           demo_request demo_back
           "{'manifest':{'name':'demo','redirect_url':'https://gamf.example/callback'},'target_type':'user','token':'02..02'}"
           "{'name':'demo','redirect_url':'https://gamf.example/callback'}"
           ("{" +:+ dq +:+ "key" +:+ dq +:+ ":" +:+ dq +:+ demo_S +:+ dq +:+ ","
            +:+ dq +:+ "url" +:+ dq +:+ ":" +:+ dq
            +:+ "https://gamf.example/redirect/" +:+ demo_I +:+ dq +:+ "}"));
    first [reflexivity | discriminate | vm_compute; discriminate].
Defined.

(** ** Callback and Code over time *)

(** X14.  After a Callback with non-empty state and code, a poll on that
    state answers 200 with the code when it comes at most five minutes
    after the callback, and 404 when it comes later; either way the poll
    consumes the record, so the poll after it answers 404. *)
Theorem code_poll_window (state code : string) (now now' now'' : time.Time)
    (w : world (gmap string value)) :
  state ≠ "" -> code ≠ "" ->
  let w1 := (run now (CallbackHandler state code) w).2 in
  let r := run now' (CodeHandler state) w1 in
  (now' <= time.Add now (5 * time.Minute) ->
   status r.1 = 200 ∧ written r.1 = code_json code) ∧
  (time.Add now (5 * time.Minute) < now' ->
   status r.1 = 404 ∧
   written r.1 = error_json "failed to find code for the given key") ∧
  status (run now'' (CodeHandler state) r.2).1 = 404.
Proof.
  intros Hs Hc w1 r.
  assert (w_store w1 !! ("s:" +:+ state)
          = Some (mkValue (time.Add now (5 * time.Minute)) code)) as Hk.
  { subst w1. rewrite (CallbackHandler_run_ok state code now w Hs Hc).
    apply lookup_insert_eq. }
  assert (w_store r.2 !! ("s:" +:+ state) = None) as Hgone.
  { subst r. destruct (decide (now' <= time.Add now (5 * time.Minute))) as [Hle|Hgt].
    - destruct (CodeHandler_found now' w1 state _ Hk Hle) as (_ & _ & ->).
      apply lookup_delete_eq.
    - destruct (CodeHandler_expired now' w1 state _ Hk) as (_ & _ & ->);
        [simpl; lia|]. apply lookup_delete_eq. }
  split_and!.
  - intros Hle. by destruct (CodeHandler_found now' w1 state _ Hk Hle) as (? & ? & _).
  - intros Hgt. by destruct (CodeHandler_expired now' w1 state _ Hk Hgt) as (? & ? & _).
  - by apply CodeHandler_unknown.
Qed.

Lemma code_poll_window_witness :
  let w1 := (run 100 (CallbackHandler "st" "XYZ") demo_world).2 in
  (status (run (100 + 5 * time.Minute) (CodeHandler "st") w1).1 = 200 ∧
   written (run (100 + 5 * time.Minute) (CodeHandler "st") w1).1 = code_json "XYZ") ∧
  (status (run (101 + 5 * time.Minute) (CodeHandler "st") w1).1 = 404 ∧
   written (run (101 + 5 * time.Minute) (CodeHandler "st") w1).1
   = error_json "failed to find code for the given key").
Proof.
  intros w1.
  destruct (code_poll_window "st" "XYZ" 100 (100 + 5 * time.Minute) 0 demo_world)
    as (Hin & _ & _); [discriminate..|].
  destruct (code_poll_window "st" "XYZ" 100 (101 + 5 * time.Minute) 0 demo_world)
    as (_ & Hout & _); [discriminate..|].
  split.
  - apply Hin. vm_compute. discriminate.
  - apply Hout. reflexivity.
Defined.

(** X15.  Callback does not check that its state was ever issued, and a
    later Callback on the same state replaces the code and restarts the
    five minutes: after two callbacks on one state, a poll within five
    minutes of the second answers with the second code, however long ago
    the first callback was. *)
Theorem Callback_last_write_wins (state code1 code2 : string)
    (t1 t2 t3 : time.Time) (w : world (gmap string value)) :
  state ≠ "" -> code1 ≠ "" -> code2 ≠ "" ->
  t3 <= time.Add t2 (5 * time.Minute) ->
  let w1 := (run t1 (CallbackHandler state code1) w).2 in
  let r2 := run t2 (CallbackHandler state code2) w1 in
  let r3 := run t3 (CodeHandler state) r2.2 in
  status r2.1 = 302 ∧
  status r3.1 = 200 ∧ written r3.1 = code_json code2 ∧
  w_store r2.2 = w_store (run t2 (CallbackHandler state code2) w).2.
Proof.
  intros Hs Hc1 Hc2 Hlive w1 r2 r3. subst r3 r2 w1.
  rewrite (CallbackHandler_run_ok state code1 t1 w Hs Hc1). cbn [snd].
  rewrite !(CallbackHandler_run_ok state code2 t2) by done. cbn [fst snd w_store].
  match goal with |- context [run t3 (CodeHandler state) ?w2] =>
    destruct (CodeHandler_found t3 w2 state
                (mkValue (time.Add t2 (5 * time.Minute)) code2)
                (lookup_insert_eq _ _ _) Hlive) as (H200 & Hbody & _)
  end.
  split_and!; [done..|]. apply insert_insert_eq.
Qed.

Lemma Callback_last_write_wins_witness :
  let w1 := (run 0 (CallbackHandler "st" "first") demo_world).2 in
  let r2 := run (6 * time.Minute) (CallbackHandler "st" "second") w1 in
  written (run (7 * time.Minute) (CodeHandler "st") r2.2).1 = code_json "second".
Proof.
  intros w1 r2.
  apply (Callback_last_write_wins "st" "first" "second"
           0 (6 * time.Minute) (7 * time.Minute) demo_world);
    first [discriminate | vm_compute; discriminate].
Defined.

Lemma read_code_response_plain_witness :
  forallb json_plain_char (list_ascii_of_string "0f3a9c") = true ∧
  read_code_response (code_json "0f3a9c") = Some "0f3a9c".
Proof.
  split; [reflexivity|]. apply read_code_response_plain. reflexivity.
Defined.

(** ** Tokens of different bytes differ *)

(** X17.  Two runs of [token()] whose reads of the random source both
    succeed with 32 bytes return the same token only if the source
    delivered the same bytes: the hexadecimal rendering loses nothing. *)
Theorem token_injective {St : Type} `{Store St} (now now' : time.Time)
    (w w' : world St) (bs bs' : list byte) :
  w_entropy w (w_reads w) = (bs, None) ->
  w_entropy w' (w_reads w') = (bs', None) ->
  length bs = 32%nat -> length bs' = 32%nat ->
  (run now token w).1.1 = (run now' token w').1.1 ->
  bs = bs'.
Proof.
  intros Hw Hw' Hlen Hlen' Heq. rewrite !run_token in Heq. cbn [fst] in Heq.
  rewrite Hw, Hw' in Heq. unfold token_of in Heq. cbn [fst snd] in Heq.
  rewrite !copy_into_full in Heq by done.
  apply (f_equal unhex) in Heq. by rewrite !unhex_EncodeToString in Heq.
Qed.

Lemma token_injective_witness :
  let w := mkWorld (∅ : gmap string value) demo_entropy 1 [] in
  let w' := mkWorld (∅ : gmap string value) (constant_entropy Byte.x02) 7 [] in
  (run 0 token w).1.1 = (run 9 token w').1.1 ∧
  (w_entropy w (w_reads w)).1 = (w_entropy w' (w_reads w')).1.
Proof.
  intros w w'. split; [reflexivity|].
  apply (token_injective 0 9 w w' _ _ eq_refl eq_refl eq_refl eq_refl).
  reflexivity.
Defined.

(** ** The environment *)

Lemma requireEnv_loop_missing env names result missing :
  (requireEnv_loop env names result missing).2
  = (missing ++ List.filter (unset env) names)%list.
Proof.
  revert result missing. induction names as [|name names IH];
    intros result missing; cbn [requireEnv_loop List.filter].
  - by rewrite app_nil_r.
  - unfold unset at 1. destruct (env !! name) as [v|] eqn:Hn; rewrite IH.
    + by case_bool_decide.
    + case_bool_decide; [|done]. by rewrite <- app_assoc.
Qed.

Lemma requireEnv_loop_result env names result missing n :
  (requireEnv_loop env names result missing).1 !! n
  = if bool_decide (n ∈ names)
    then match env !! n with Some v => Some v | None => result !! n end
    else result !! n.
Proof.
  revert result missing. induction names as [|name names IH];
    intros result missing; cbn [requireEnv_loop].
  - case_bool_decide as Hin; [|done]. by apply elem_of_nil in Hin.
  - assert (bool_decide (n ∈ name :: names)
            = bool_decide (n = name) || bool_decide (n ∈ names)) as ->.
    { apply eq_true_iff_eq. rewrite orb_true_iff, !bool_decide_eq_true.
      apply elem_of_cons. }
    destruct (env !! name) as [v|] eqn:Hn; rewrite IH;
      destruct (decide (n = name)) as [->|Hne].
    + rewrite Hn, lookup_insert_eq, (bool_decide_eq_true_2 (name = name)) by done.
      by case_bool_decide.
    + rewrite lookup_insert_ne, (bool_decide_eq_false_2 (n = name)) by done.
      done.
    + rewrite Hn, (bool_decide_eq_true_2 (name = name)) by done.
      by case_bool_decide.
    + by rewrite (bool_decide_eq_false_2 (n = name)) by done.
Qed.

Lemma filter_unset_nil (env : gmap string string) (names : list string) :
  List.filter (unset env) names = [] ↔ Forall (fun n => is_Some (env !! n)) names.
Proof.
  induction names as [|name names IH]; cbn [List.filter].
  - split; [constructor|done].
  - unfold unset at 1. case_bool_decide as Hn.
    + split; [done|]. intros HF. apply Forall_cons in HF as [[v Hv] _]. congruence.
    + rewrite IH. split.
      * intros HF. constructor; [|done]. by apply not_eq_None_Some.
      * intros HF. by apply Forall_cons in HF as [_ ?].
Qed.

Lemma requireEnv_all_set (env : gmap string string) (names : list string) :
  List.filter (unset env) names = [] ->
  (requireEnv env names).2 = None ∧
  ∀ n, (requireEnv env names).1 !! n
       = if bool_decide (n ∈ names) then env !! n else None.
Proof.
  intros Hnil. unfold requireEnv.
  rewrite requireEnv_loop_missing, Hnil. cbn [app length Nat.ltb Nat.leb fst snd].
  split; [done|]. intros n. rewrite requireEnv_loop_result, lookup_empty.
  case_bool_decide; [|done]. by destruct (env !! n).
Qed.

Lemma requireEnv_some_unset (env : gmap string string) (names : list string) :
  List.filter (unset env) names ≠ [] ->
  requireEnv env names
  = (∅, Some (other_error ("variables not set: "
                           +:+ fmt_strings (List.filter (unset env) names)))).
Proof.
  intros Hne. unfold requireEnv. rewrite requireEnv_loop_missing. cbn [app].
  by destruct (List.filter (unset env) names).
Qed.

(** X18.  [requireEnv] succeeds exactly when every name is set.  Then its
    result holds every required name with the value of the environment
    and nothing else.  Otherwise it returns an empty map and an error
    whose text lists the names that are not set, in the order they were
    asked for. *)
Theorem requireEnv_spec (env : gmap string string) (names : list string) :
  ((requireEnv env names).2 = None ↔
   Forall (fun n => is_Some (env !! n)) names) ∧
  (Forall (fun n => is_Some (env !! n)) names ->
   ∀ n, (requireEnv env names).1 !! n
        = if bool_decide (n ∈ names) then env !! n else None) ∧
  (¬ Forall (fun n => is_Some (env !! n)) names ->
   requireEnv env names
   = (∅, Some (other_error ("variables not set: "
                            +:+ fmt_strings (List.filter (unset env) names))))).
Proof.
  split_and!.
  - rewrite <- filter_unset_nil. split.
    + intros Hok. destruct (List.filter (unset env) names) eqn:Hf; [done|].
      rewrite requireEnv_some_unset in Hok by (by rewrite Hf). done.
    + intros Hnil. by apply requireEnv_all_set.
  - intros Hall. by apply requireEnv_all_set, filter_unset_nil.
  - intros Hnot. apply requireEnv_some_unset. by rewrite filter_unset_nil.
Qed.

Lemma requireEnv_spec_witness :
  let env : gmap string string :=
    <["PORT" := "8080"]> (<["HOME" := "/root"]> (<["GAMF_ENV" := ""]> ∅)) in
  (requireEnv env ["PORT"; "GAMF_ENV"]).1 !! "PORT" = Some "8080" ∧
  (requireEnv env ["PORT"; "GAMF_ENV"]).1 !! "HOME" = None ∧
  requireEnv env ["REDIS_URL"; "PORT"; "GAMF_URL"]
  = (∅, Some (other_error "variables not set: [REDIS_URL GAMF_URL]")).
Proof.
  intros env.
  destruct (requireEnv_spec env ["PORT"; "GAMF_ENV"]) as (_ & Hok & _).
  destruct (requireEnv_spec env ["REDIS_URL"; "PORT"; "GAMF_URL"]) as (_ & _ & Hbad).
  split_and!.
  - rewrite Hok; [reflexivity|]. repeat constructor; by eexists.
  - rewrite Hok; [reflexivity|]. repeat constructor; by eexists.
  - rewrite Hbad; [reflexivity|].
    intros HF. apply Forall_cons in HF as [[v Hv] _]. discriminate Hv.
Defined.

Lemma defaultEnv_union (l : list (string * string)) (env : gmap string string) :
  Forall (fun kv => ∀ e, os_Setenv e kv.1 kv.2 = (None, <[kv.1 := kv.2]> e)) l ->
  defaultEnv l env = (None, env ∪ list_to_map l).
Proof.
  intros Hvalid. revert env.
  induction Hvalid as [|[k v] l Hkv _ IH]; intros env; cbn [defaultEnv].
  - change (list_to_map []) with (∅ : gmap string string).
    by rewrite (right_id_L ∅ (∪)).
  - change (list_to_map ((k, v) :: l))
      with (<[k := v]> (list_to_map l : gmap string string)).
    simpl in Hkv. destruct (env !! k) as [x|] eqn:Hk.
    + rewrite IH. f_equal. apply map_eq. intros i. rewrite !lookup_union.
      destruct (decide (i = k)) as [->|Hne].
      * rewrite Hk, lookup_insert_eq. by destruct (list_to_map l !! k).
      * by rewrite lookup_insert_ne.
    + rewrite Hkv. cbn [fst snd]. rewrite IH. f_equal.
      by rewrite <- insert_union_l, insert_union_r.
Qed.

Lemma defaults_valid :
  Forall (fun kv => ∀ e, os_Setenv e kv.1 kv.2 = (None, <[kv.1 := kv.2]> e))
         defaults.
Proof. repeat constructor. Qed.

Lemma defaults_NoDup : NoDup defaults.*1.
Proof. by apply (bool_decide_unpack _). Qed.

Lemma defaultEnv_any_order (order : list (string * string))
    (env : gmap string string) :
  order ≡ₚ defaults ->
  defaultEnv order env = (None, env ∪ list_to_map defaults).
Proof.
  intros Hperm. rewrite defaultEnv_union.
  - f_equal. f_equal. apply list_to_map_proper; [|done].
    rewrite Hperm. apply defaults_NoDup.
  - rewrite Hperm. apply defaults_valid.
Qed.

(** X19.  Whatever order the defaults are visited in, [defaultEnv] never
    fails, keeps the value of every variable that is already set (also
    one set to the empty string), gives each of the five variables that
    is not set its default, and touches no other variable. *)
Theorem defaultEnv_keeps_and_fills (order : list (string * string))
    (env : gmap string string) :
  order ≡ₚ defaults ->
  (defaultEnv order env).1 = None ∧
  (∀ k x, env !! k = Some x -> (defaultEnv order env).2 !! k = Some x) ∧
  (∀ k v, (k, v) ∈ defaults -> env !! k = None ->
          (defaultEnv order env).2 !! k = Some v) ∧
  (∀ k, k ∉ defaults.*1 -> (defaultEnv order env).2 !! k = env !! k).
Proof.
  intros Hperm. rewrite (defaultEnv_any_order order env Hperm). cbn [fst snd].
  split_and!; [done| | |].
  - intros k x Hk. by apply lookup_union_Some_l.
  - intros k v Hin Hk. rewrite lookup_union_r by done.
    apply elem_of_list_to_map_1; [|done].
    apply defaults_NoDup.
  - intros k Hk. rewrite lookup_union.
    rewrite (not_elem_of_list_to_map_1 _ _ Hk). by destruct (env !! k).
Qed.

Lemma defaultEnv_keeps_and_fills_witness :
  let env : gmap string string := <["PORT" := "8080"]> (<["HOME" := "/root"]> ∅) in
  (defaultEnv (reverse defaults) env).2 !! "PORT" = Some "8080" ∧
  (defaultEnv (reverse defaults) env).2 !! "GAMF_ENV" = Some "development" ∧
  (defaultEnv (reverse defaults) env).2 !! "HOME" = Some "/root".
Proof.
  intros env.
  destruct (defaultEnv_keeps_and_fills (reverse defaults) env)
    as (_ & Hkeep & Hfill & _); [apply reverse_Permutation|].
  split_and!.
  - apply Hkeep. reflexivity.
  - apply Hfill; [|reflexivity]. set_solver.
  - apply Hkeep. reflexivity.
Defined.

(** X20.  After [defaultEnv], in any order and from any environment,
    [requireEnv] on the five names [realMain] asks for succeeds, and each
    name comes out with the value it had in the environment if it was
    set, and with its default otherwise. *)
Theorem defaultEnv_then_requireEnv (order : list (string * string))
    (env : gmap string string) :
  order ≡ₚ defaults ->
  let env' := (defaultEnv order env).2 in
  (requireEnv env' required_names).2 = None ∧
  ∀ k v, (k, v) ∈ defaults ->
         (requireEnv env' required_names).1 !! k = Some (default v (env !! k)).
Proof.
  intros Hperm env'. subst env'.
  rewrite (defaultEnv_any_order order env Hperm). cbn [fst snd].
  assert (∀ k v, (k, v) ∈ defaults ->
            (env ∪ list_to_map defaults) !! k = Some (default v (env !! k))) as Hlook.
  { intros k v Hin. rewrite lookup_union.
    assert ((list_to_map defaults : gmap string string) !! k = Some v) as ->.
    { apply elem_of_list_to_map_1; [|done].
      apply defaults_NoDup. }
    by destruct (env !! k). }
  assert (List.filter (unset (env ∪ list_to_map defaults)) required_names = [])
    as Hnil.
  { apply filter_unset_nil. unfold required_names.
    apply Forall_cons; split;
      [eexists; apply (Hlook _ "1123"); set_solver|].
    apply Forall_cons; split;
      [eexists; apply (Hlook _ "http://localhost:1123"); set_solver|].
    apply Forall_cons; split;
      [eexists; apply (Hlook _ "localhost:1123"); set_solver|].
    apply Forall_cons; split;
      [eexists; apply (Hlook _ "development"); set_solver|].
    apply Forall_cons; split;
      [eexists; apply (Hlook _ "redis://localhost:6379"); set_solver|].
    constructor. }
  destruct (requireEnv_all_set _ _ Hnil) as [Hok Hres].
  split; [done|]. intros k v Hin. rewrite Hres, bool_decide_eq_true_2.
  - by apply Hlook.
  - unfold defaults in Hin.
    repeat (apply elem_of_cons in Hin as [[= -> ->]|Hin];
            [by apply (bool_decide_unpack _)|]).
    by apply elem_of_nil in Hin.
Qed.

Lemma defaultEnv_then_requireEnv_witness :
  let env : gmap string string := <["PORT" := "8080"]> ∅ in
  let env' := (defaultEnv defaults env).2 in
  (requireEnv env' required_names).1 !! "PORT" = Some "8080" ∧
  (requireEnv env' required_names).1 !! "REDIS_URL" = Some "redis://localhost:6379".
Proof.
  intros env env'.
  destruct (defaultEnv_then_requireEnv defaults env) as [_ Hres]; [done|].
  split.
  - apply (Hres "PORT" "1123"). set_solver.
  - apply (Hres "REDIS_URL" "redis://localhost:6379"). set_solver.
Defined.

(** ** The keys Start writes *)

Lemma calls_all_bind_results {A B : Type} (P : store_call -> Prop) (Q : A -> Prop)
    (p : prog A) (f : A -> prog B) :
  results_all Q p -> calls_all P p -> (∀ a, Q a -> calls_all P (f a)) ->
  calls_all P (bind p f).
Proof.
  intros HQ HP Hf. induction p as [a|n k IH|key k IH|key v ttl k IH]; simpl in *.
  - by apply Hf.
  - intros r. by apply IH.
  - destruct HP. split; [done|]. intros r. by apply IH.
  - destruct HP. split; [done|]. intros r. by apply IH.
Qed.

Lemma token_results :
  results_all (fun r => r.2 = None ->
                 String.length r.1 = 64%nat ∧
                 Forall (fun c => is_hex_lower c = true) (list_ascii_of_string r.1))
              token.
Proof.
  unfold token. simpl. intros r. destruct (r.2); simpl; [done|]. intros _. split.
  - by rewrite hex_EncodeToString_length, copy_into_length.
  - apply hex_EncodeToString_lower.
Qed.

(** X21.  Whatever the request and the random source, the only store
    call Start can make is a [SetEx] with a TTL of ten minutes on a key
    made of the prefix i: and 64 lowercase hexadecimal digits; the result
    of a failed read is never used as a key. *)
Theorem Start_key_shape {St : Type} `{Store St} (J : json_codec)
    (baseURL body : string) (now : time.Time) (w : world St) :
  ∃ new,
    w_calls (run now (StartHandler J baseURL body) w).2 = (w_calls w ++ new)%list ∧
    Forall (fun c => ∃ tok v,
              c = CallSetEx ("i:" +:+ tok) v (10 * time.Minute) ∧
              String.length tok = 64%nat ∧
              Forall (fun a => is_hex_lower a = true) (list_ascii_of_string tok))
           new.
Proof.
  apply run_calls_all. unfold StartHandler.
  destruct (Decode_startRequest J body); [|done].
  eapply calls_all_bind_results;
    [apply token_results|apply calls_all_token|]. intros r1 Hr1.
  simpl in Hr1. destruct (r1.2); [done|]. destruct (Hr1 eq_refl) as [Hlen Hhex].
  apply calls_all_bind; [apply calls_all_token|]. intros r2.
  destruct (r2.2); [done|].
  destruct (Marshal_startRequest J _); [|done]. simpl. split; [by eauto 6|].
  intros [e|]; [done|]. by destruct (Marshal_startResponse J _ _).
Qed.
